(** * wingman-chat: the artifacts filesystem tools, the artifact classifier
      and the file-tree projection

    A shallow embedding of
      - [src/lib/artifacts.ts]               ([artifactLanguage], [artifactKind]),
      - [src/hooks/useArtifacts.ts]          (the seven tools of [artifactsTools]),
      - the file browser ([buildFileTree], [FileTreeNode], [ArtifactsBrowser])
    together with the properties the specification states about them.

    A JavaScript string is modelled by the Rocq [string] of its UTF-8
    encoding.  The characters the code inspects (['/'], ['.']) are single
    bytes that occur in no other character's encoding, so [split],
    [startsWith] and [===] are what they are on the code units.  [length]
    counts code units ([JS.length]).  [toLowerCase] is the ASCII case mapping
    (['A'..'Z'] to ['a'..'z']): it is [String.prototype.toLowerCase] on every
    string in which no character outside ASCII has a lower-case mapping. *)

From Stdlib Require Import Ascii String NArith.
From stdpp Require Import gmap strings list sorting.

(** ** JavaScript string primitives used by the sources *)

Module JS.

(** [s.split(sep)] for a one-character separator: never the empty array. *)
Fixpoint split (sep : ascii) (s : string) : list string :=
  match s with
  | EmptyString => [EmptyString]
  | String c s' =>
      if Ascii.eqb c sep then EmptyString :: split sep s'
      else match split sep s' with
           | [] => [String c EmptyString]
           | h :: t => String c h :: t
           end
  end.

(** [arr.pop()] read as a value: the last element, [undefined] when empty. *)
Definition pop (l : list string) : option string := last l.

(** [s.startsWith(p)]. *)
Fixpoint startsWith (s p : string) : bool :=
  match p, s with
  | EmptyString, _ => true
  | String c p', String x s' => Ascii.eqb x c && startsWith s' p'
  | String _ _, EmptyString => false
  end.

Definition lower_char (c : ascii) : ascii :=
  let n := nat_of_ascii c in
  if (65 <=? n)%nat && (n <=? 90)%nat then ascii_of_nat (n + 32) else c.

(** [s.toLowerCase()], which maps the ASCII letters like this and leaves
    every other character alone that has no lower-case mapping. *)
Fixpoint toLowerCase (s : string) : string :=
  match s with
  | EmptyString => EmptyString
  | String c s' => String (lower_char c) (toLowerCase s')
  end.

(** [x?.toLowerCase() || ''] for [x : string | undefined]. *)
Definition lower_or_empty (x : option string) : string :=
  match x with
  | Some s => toLowerCase s
  | None => EmptyString
  end.

(** Does the character occur in the string? *)
Fixpoint contains (c : ascii) (s : string) : bool :=
  match s with
  | EmptyString => false
  | String x s' => Ascii.eqb x c || contains c s'
  end.

(** The UTF-8 encoding of the character with the given code point. *)
Definition utf8 (cp : N) : string :=
  let byte (n : N) := ascii_of_N n in
  let cont (n : N) := byte (128 + n mod 64)%N in
  if (cp <? 128)%N then String (byte cp) EmptyString
  else if (cp <? 2048)%N
  then String (byte (192 + cp / 64)%N) (String (cont cp) EmptyString)
  else if (cp <? 65536)%N
  then String (byte (224 + cp / 4096)%N)
         (String (cont (cp / 64)%N) (String (cont cp) EmptyString))
  else String (byte (240 + cp / 262144)%N)
         (String (cont (cp / 4096)%N)
            (String (cont (cp / 64)%N) (String (cont cp) EmptyString))).

(** The UTF-16 code units a byte of the encoding stands for: one for the
    first byte of a character of one, two or three bytes, two for the first
    byte of a character of four bytes, none for a continuation byte. *)
Definition units (c : ascii) : nat :=
  let n := nat_of_ascii c in
  if (n <? 128)%nat then 1
  else if (n <? 192)%nat then 0
  else if (n <? 240)%nat then 1
  else 2.

(** [s.length]. *)
Fixpoint length (s : string) : nat :=
  match s with
  | EmptyString => 0
  | String c s' => units c + length s'
  end.

End JS.

(** ** Letter case outside ASCII

    The specification speaks of changing the letter case of a path.  Besides
    the ASCII letters, two characters have one ASCII letter as their upper
    case: U+017F (latin small letter long s, upper case [S]) and U+0131
    (latin small letter dotless i, upper case [I]).  [toUpperCase] is
    [String.prototype.toUpperCase] on the strings in which the characters
    with an upper-case mapping are ASCII letters or these two. *)

Module LetterCase.

Definition upper_char (c : ascii) : ascii :=
  let n := nat_of_ascii c in
  if (97 <=? n)%nat && (n <=? 122)%nat then ascii_of_nat (n - 32) else c.

Fixpoint toUpperCase (s : string) : string :=
  match s with
  | EmptyString => EmptyString
  | String c s' =>
      match s' with
      | String d s'' =>
          if Ascii.eqb c "197" && Ascii.eqb d "191"       (* U+017F *)
          then String "S" (toUpperCase s'')
          else if Ascii.eqb c "196" && Ascii.eqb d "177"  (* U+0131 *)
          then String "I" (toUpperCase s'')
          else String (upper_char c) (toUpperCase s')
      | EmptyString => String (upper_char c) EmptyString
      end
  end.

End LetterCase.

(** ** src/lib/artifacts.ts *)

Inductive ArtifactKind := text | code | svg | html | csv | mermaid | markdown.

Global Instance ArtifactKind_eq_dec : EqDecision ArtifactKind.
Proof. solve_decision. Defined.

Definition codeExtensions : list string :=
  [ "js"; "jsx"; "ts"; "tsx"; "mjs"; "cjs"; "py"; "go"; "rs"; "java"; "jar";
    "c"; "cc"; "cpp"; "cxx"; "h"; "hpp"; "hxx"; "hh"; "cs"; "php"; "rb";
    "swift"; "kt"; "kts"; "scala"; "sc"; "dart"; "m"; "mm"; "sh"; "bash";
    "zsh"; "ksh"; "pl"; "pm"; "t"; "r"; "jl"; "lua"; "hs"; "ex"; "exs";
    "erl"; "hrl"; "fs"; "fsi"; "fsx"; "fsscript"; "vb"; "vbs"; "asm"; "s";
    "S"; "sql"; "d.ts"; "groovy"; "gradle"; "coffee"; "nim"; "clj"; "cljs";
    "edn"; "lisp"; "scm"; "rkt"; "ml"; "mli"; "ada"; "adb"; "ads"; "pas";
    "pp"; "f"; "f90"; "f95"; "for"; "v"; "vh"; "sv"; "vhd"; "vhdl";
    "css"; "scss"; "sass"; "less"; "styl"; "json"; "jsonc"; "json5";
    "yaml"; "yml"; "toml"; "ini"; "conf"; "cfg"; "xml" ].

(** [codeExtensions.includes(ext)] *)
Definition includes (l : list string) (x : string) : bool :=
  existsb (String.eqb x) l.

Definition artifactKind (path : string) : ArtifactKind :=
  let ext := JS.lower_or_empty (JS.pop (JS.split "." path)) in
  let basename := JS.lower_or_empty (JS.pop (JS.split "/" path)) in
  if String.eqb basename "dockerfile" || JS.startsWith basename "dockerfile." then code
  else if String.eqb basename "makefile" || JS.startsWith basename "makefile." then code
  else if String.eqb ext "html" || String.eqb ext "htm" then html
  else if String.eqb ext "svg" then svg
  else if String.eqb ext "csv" || String.eqb ext "tsv" then csv
  else if String.eqb ext "mmd" || String.eqb ext "mermaid" then mermaid
  else if String.eqb ext "md" || String.eqb ext "markdown" then markdown
  else if includes codeExtensions ext then code
  else text.

(** The final slash-separated segment of a path, stated without [split]:
    [seg] has no slash and the path is [seg] itself or ends in ["/" ++ seg]. *)
Definition final_segment (p seg : string) : Prop :=
  JS.contains "/" seg = false ∧ (p = seg ∨ ∃ dir, p = dir +:+ "/" +:+ seg).

Definition absolute (p : string) : bool := JS.startsWith p "/".


(** The verdict of [artifactKind] as a function of the two strings it derives
    from the path. *)
Definition verdict (ext basename : string) : ArtifactKind :=
  if String.eqb basename "dockerfile" || JS.startsWith basename "dockerfile." then code
  else if String.eqb basename "makefile" || JS.startsWith basename "makefile." then code
  else if String.eqb ext "html" || String.eqb ext "htm" then html
  else if String.eqb ext "svg" then svg
  else if String.eqb ext "csv" || String.eqb ext "tsv" then csv
  else if String.eqb ext "mmd" || String.eqb ext "mermaid" then mermaid
  else if String.eqb ext "md" || String.eqb ext "markdown" then markdown
  else if includes codeExtensions ext then code
  else text.


(** [toLowerCase] does not turn any character into, or away from, [c]. *)
Definition caseless (c : ascii) : Prop :=
  ∀ x, Ascii.eqb (JS.lower_char x) c = Ascii.eqb x c.

(** ** The virtual filesystem Store ([lib/fs], class [FileSystemManager]) *)

Module FS.

(** Modelled from the spec: the record type of [lib/fs], which is not among
    the sources.  Section 3 gives it a path, a content, a classification tag
    and two timestamps; the tools read [path], [content] and [contentType]
    only, and the timestamps are left out. *)
Record FileRecord := {
  path : string;
  content : string;
  contentType : ArtifactKind
}.

Global Instance FileRecord_eq_dec : EqDecision FileRecord.
Proof. solve_decision. Defined.

(** Modelled from the spec: the Store's state, "the mapping from path to file
    record" with its "monotonic version counter" (sections 2 and 3).  The
    event bus is not modelled: no tool subscribes to it. *)
Record FileSystemManager := {
  files : gmap string FileRecord;
  version : nat
}.

Inductive StoreError := InvalidPath | AlreadyExists.

(** A call that may throw. *)
Inductive Result (A : Type) :=
| Ok (a : A)
| Throw (e : StoreError).
Arguments Ok {A} a.
Arguments Throw {A} e.

(** Modelled from the spec: a path is "absolute, slash-separated ..., never
    empty, always begins with /", has no trailing slash and no empty segment
    (section 3). *)
Definition wellFormedPath (p : string) : bool :=
  match JS.split "/" p with
  | EmptyString :: seg :: segs =>
      forallb (fun s => negb (String.eqb s "")) (seg :: segs)
  | _ => false
  end.

(** Modelled from the spec: [getFile] is a "pure lookup, no side effects,
    never fails". *)
Definition getFile (m : FileSystemManager) (p : string) : option FileRecord :=
  files m !! p.

(** Modelled from the spec: [listFiles()] with no filter "returns every
    record in unspecified order"; the tools never pass a prefix. *)
Definition listFiles (m : FileSystemManager) : list FileRecord :=
  (map_to_list (files m)).*2.

(** Modelled from the spec: [createFile] "fails with InvalidPath if path is
    empty, malformed, or does not start with /", "with AlreadyExists if a
    record already occupies that exact path"; otherwise it inserts the
    record, classifies it and increments the version. *)
Definition createFile (m : FileSystemManager) (p c : string)
  : Result (FileRecord * FileSystemManager) :=
  if negb (wellFormedPath p) then Throw InvalidPath
  else match files m !! p with
       | Some _ => Throw AlreadyExists
       | None =>
           let r := {| path := p; content := c; contentType := artifactKind p |} in
           Ok (r, {| files := <[p := r]> (files m); version := S (version m) |})
       end.

(** The comparison section 4.1 requires of folder operations, second half:
    [candidate.startsWith(prefix + '/')]. *)
Definition inFolder (prefix candidate : string) : bool :=
  JS.startsWith candidate (prefix +:+ "/").

(** Modelled from the spec: [deleteFile] deletes the exact record if there is
    one; failing that, every record having [p] as a strict folder prefix;
    it "returns false only if neither an exact file nor any prefixed files
    exist". *)
Definition deleteFile (m : FileSystemManager) (p : string)
  : bool * FileSystemManager :=
  match files m !! p with
  | Some _ => (true, {| files := delete p (files m); version := S (version m) |})
  | None =>
      if existsb (fun f => inFolder p (path f)) (listFiles m)
      then (true, {| files := filter (fun kv => ¬ inFolder p kv.1) (files m);
                     version := S (version m) |})
      else (false, m)
  end.

(** The path of a record of folder [old] once the folder is named [new]:
    the prefix is substituted, the relative suffix kept. *)
Definition rebase (old new candidate : string) : string :=
  new +:+ String.substring (String.length old)
            (String.length candidate - String.length old) candidate.

(** Modelled from the spec: [renameFile].  The format of [new] is validated
    before any mutation.  An exact record moves to the new key unless that
    key is taken.  Otherwise, when [old] is a strict folder prefix of some
    records, the whole subtree moves, or nothing does if one target path is
    occupied. *)
Definition renameFile (m : FileSystemManager) (old new : string)
  : Result (bool * FileSystemManager) :=
  if negb (JS.startsWith new "/") then Throw InvalidPath
  else match files m !! old with
       | Some r =>
           match files m !! new with
           | Some _ => Ok (false, m)
           | None =>
               let r' := {| path := new; content := content r;
                            contentType := contentType r |} in
               Ok (true, {| files := <[new := r']> (delete old (files m));
                            version := S (version m) |})
           end
       | None =>
           let moved := List.filter (fun f => inFolder old (path f)) (listFiles m) in
           let kept := filter (fun kv => ¬ inFolder old kv.1) (files m) in
           let targets := List.map (fun f => rebase old new (path f)) moved in
           match moved with
           | [] => Ok (false, m)
           | _ :: _ =>
               if existsb (fun t => bool_decide (is_Some (files m !! t))) targets
               then Ok (false, m)
               else
                 let put (acc : gmap string FileRecord) (f : FileRecord) :=
                   let t := rebase old new (path f) in
                   <[t := {| path := t; content := content f;
                             contentType := contentType f |}]> acc in
                 Ok (true, {| files := foldl put kept moved;
                              version := S (version m) |})
           end
       end.

(** Every record is stored under its own path. *)
Definition consistent (m : FileSystemManager) : Prop :=
  map_Forall (λ k r, path r = k) (files m).

(** A store holding the given files, created in order. *)
Definition create (m : FileSystemManager) (pc : string * string) : FileSystemManager :=
  match createFile m pc.1 pc.2 with
  | Ok (_, m') => m'
  | Throw _ => m
  end.

Definition empty : FileSystemManager := {| files := ∅; version := 0 |}.

Definition ofList (l : list (string * string)) : FileSystemManager :=
  foldl create empty l.

End FS.

(** ** src/hooks/useArtifacts.ts: the tools of [artifactsTools] *)

Module Tools.
Import FS.

(** The value a tool hands to [JSON.stringify]; the response is its
    serialisation. *)
#[warnings="-register-all"]
Inductive Json :=
| JNull
| JBool (b : bool)
| JNum (n : nat)
| JStr (s : string)
| JArr (items : list Json)
| JObj (fields : list (string * Json)).

(** [args : Record<string, unknown>], read through [args.k as string], for
    arguments that are what the tools' parameter schemas declare: strings,
    when present.  [Untyped] below has [create_file] on arguments of any
    type. *)
Abbreviation Args := (gmap string string).

(** The mutating Store calls a tool makes, in order. *)
Inductive StoreCall :=
| createFileCall (p c : string)
| deleteFileCall (p : string)
| renameFileCall (oldPath newPath : string).

(** What a tool invocation leaves behind: the response, the Store the closure
    captured ([fs], possibly [null]) after the call, and the mutating calls
    made on it. *)
Record Outcome := {
  response : Json;
  store : option FileSystemManager;
  calls : list StoreCall
}.

(** Truthiness of a [string | undefined | null]. *)
Definition truthy (s : option string) : bool :=
  match s with
  | Some (String _ _) => true
  | _ => false
  end.

Definition kindName (k : ArtifactKind) : string :=
  match k with
  | text => "text" | code => "code" | svg => "svg" | html => "html"
  | csv => "csv" | mermaid => "mermaid" | markdown => "markdown"
  end.

Definition failure (msg : string) : Json := JObj [("error", JStr msg)].

(** A return that performs no Store call. *)
Definition reply (fs : option FileSystemManager) (r : Json) : Outcome :=
  {| response := r; store := fs; calls := [] |}.

Section WithContext.
(** The values the hook takes from [ArtifactsContext]. *)
Variable fs : option FileSystemManager.
Variable activeFile : option string.

Definition create_file (args : Args) : Outcome :=
  let path := args !! "path" in
  let content := args !! "content" in
  match path, content with
  | Some (String _ _ as path), Some (String _ _ as content) =>
      if negb (JS.startsWith path "/")
      then reply fs (failure "Path must start with /")
      else
        match fs with
        | None => reply fs (failure "File system not available")
        | Some m =>
            match createFile m path content with
            | Ok (_, m') =>
                {| response := JObj [("success", JBool true);
                                     ("message", JStr ("File created: " +:+ path));
                                     ("path", JStr path)];
                   store := Some m';
                   calls := [createFileCall path content] |}
            | Throw _ =>
                {| response := failure "Failed to create file";
                   store := Some m;
                   calls := [createFileCall path content] |}
            end
        end
  | _, _ => reply fs (failure "Path and content are required")
  end.

(** [listFiles] and [getFile] do not throw: the [catch] branches of
    [list_files], [read_file], [current_path] and [current_file] are
    never taken and have no counterpart below. *)
Definition list_files (args : Args) : Outcome :=
  let directory := args !! "directory" in
  match fs with
  | None => reply fs (failure "File system not available")
  | Some m =>
      let allFiles := listFiles m in
      let filteredFiles :=
        match directory with
        | Some (String _ _ as directory) =>
            List.filter (fun file => JS.startsWith (path file) directory) allFiles
        | _ => allFiles
        end in
      let fileList :=
        List.map (fun file => JObj [("path", JStr (path file));
                                    ("size", JNum (JS.length (content file)));
                                    ("contentType", JStr (kindName (contentType file)))])
                 filteredFiles in
      reply fs (JObj [("success", JBool true);
                      ("files", JArr fileList);
                      ("count", JNum (length fileList))])
  end.

(** [deleteFile] returns a boolean and does not throw: no [catch] branch. *)
Definition delete_file (args : Args) : Outcome :=
  match args !! "path" with
  | Some (String _ _ as path) =>
      match fs with
      | None => reply fs (failure "File system not available")
      | Some m =>
          let file := getFile m path in
          let isFolder :=
            existsb (fun f => JS.startsWith (FS.path f) (path +:+ "/")) (listFiles m) in
          if negb (bool_decide (is_Some file)) && negb isFolder
          then reply fs (failure ("File or folder not found: " +:+ path))
          else
            let '(success, m') := deleteFile m path in
            if success then
              let itemType := if bool_decide (is_Some file) then "file" else "folder" in
              {| response := JObj [("success", JBool true);
                                   ("message", JStr (itemType +:+ " deleted: " +:+ path));
                                   ("path", JStr path)];
                 store := Some m';
                 calls := [deleteFileCall path] |}
            else
              {| response := failure ("Failed to delete: " +:+ path);
                 store := Some m';
                 calls := [deleteFileCall path] |}
      end
  | _ => reply fs (failure "Path is required")
  end.

Definition move_file (args : Args) : Outcome :=
  match args !! "fromPath", args !! "toPath" with
  | Some (String _ _ as fromPath), Some (String _ _ as toPath) =>
      match fs with
      | None => reply fs (failure "File system not available")
      | Some m =>
          match getFile m fromPath with
          | None => reply fs (failure ("Source file not found: " +:+ fromPath))
          | Some sourceFile =>
              match getFile m toPath with
              | Some destFile =>
                  reply fs (failure ("Destination file already exists: " +:+ toPath))
              | None =>
                  if negb (JS.startsWith toPath "/")
                  then reply fs (failure "Destination path must start with /")
                  else
                    match renameFile m fromPath toPath with
                    | Ok (false, m') =>
                        {| response :=
                             failure ("Failed to move file from " +:+ fromPath +:+ " to "
                                      +:+ toPath
                                      +:+ ". Source may not exist or destination already exists.");
                           store := Some m';
                           calls := [renameFileCall fromPath toPath] |}
                    | Ok (true, m') =>
                        {| response :=
                             JObj [("success", JBool true);
                                   ("message", JStr ("File moved from " +:+ fromPath
                                                     +:+ " to " +:+ toPath));
                                   ("fromPath", JStr fromPath);
                                   ("toPath", JStr toPath)];
                           store := Some m';
                           calls := [renameFileCall fromPath toPath] |}
                    | Throw _ =>
                        {| response := failure "Failed to move file";
                           store := Some m;
                           calls := [renameFileCall fromPath toPath] |}
                    end
              end
          end
      end
  | _, _ => reply fs (failure "Both fromPath and toPath are required")
  end.

Definition fileInfo (p : string) (file : FileRecord) : Json :=
  JObj [("path", JStr p);
        ("size", JNum (JS.length (content file)));
        ("content", JStr (content file));
        ("contentType", JStr (kindName (contentType file)))].

Definition read_file (args : Args) : Outcome :=
  match args !! "path" with
  | Some (String _ _ as path) =>
      match fs with
      | None => reply fs (failure "File system not available")
      | Some m =>
          match getFile m path with
          | None => reply fs (failure ("File not found: " +:+ path))
          | Some file =>
              reply fs (JObj [("success", JBool true); ("file", fileInfo path file)])
          end
      end
  | _ => reply fs (failure "Path is required")
  end.

Definition current_path (args : Args) : Outcome :=
  match activeFile with
  | Some (String _ _ as activeFile) =>
      reply fs (JObj [("success", JBool true); ("currentPath", JStr activeFile)])
  | _ =>
      reply fs (JObj [("success", JBool true);
                      ("message", JStr "No file is currently active");
                      ("currentPath", JNull)])
  end.

Definition current_file (args : Args) : Outcome :=
  match activeFile with
  | Some (String _ _ as activeFile) =>
      match fs with
      | None => reply fs (failure "File system not available")
      | Some m =>
          match getFile m activeFile with
          | None => reply fs (failure ("Active file not found: " +:+ activeFile))
          | Some file =>
              reply fs (JObj [("success", JBool true);
                              ("currentFile", fileInfo (path file) file)])
          end
      end
  | _ =>
      reply fs (JObj [("success", JBool true);
                      ("message", JStr "No file is currently active");
                      ("currentFile", JNull)])
  end.

(** [Tool]: the name and the function (description and parameter schema
    are documentation). *)
Record Tool := {
  name : string;
  function : Args → Outcome
}.

Definition artifactsTools : list Tool :=
  [ {| name := "create_file"; function := create_file |};
    {| name := "list_files"; function := list_files |};
    {| name := "delete_file"; function := delete_file |};
    {| name := "move_file"; function := move_file |};
    {| name := "read_file"; function := read_file |};
    {| name := "current_path"; function := current_path |};
    {| name := "current_file"; function := current_file |} ].

End WithContext.

(** *** Reading a response *)

(** The value of a field of a JSON object (the first occurrence: object
    literals in the source never repeat a key). *)
Fixpoint field (k : string) (fields : list (string * Json)) : option Json :=
  match fields with
  | [] => None
  | (k', v) :: rest => if String.eqb k k' then Some v else field k rest
  end.

Definition get (k : string) (j : Json) : option Json :=
  match j with
  | JObj fields => field k fields
  | _ => None
  end.

(** The response has the field [success: true]. *)
Definition hasSuccess (j : Json) : bool :=
  match get "success" j with
  | Some (JBool true) => true
  | _ => false
  end.

(** The response has a field [error] holding a string. *)
Definition hasError (j : Json) : bool :=
  match get "error" j with
  | Some (JStr _) => true
  | _ => false
  end.

Definition isObject (j : Json) : bool :=
  match j with
  | JObj _ => true
  | _ => false
  end.

(** Either [success: true] or [error: string]: not both, not neither. *)
Definition wellShaped (j : Json) : bool :=
  isObject j && xorb (hasSuccess j) (hasError j).

(** The paths listed in the [files] field of a [list_files] response. *)
Definition listedPaths (j : Json) : list string :=
  match get "files" j with
  | Some (JArr items) =>
      omap (fun item => match get "path" item with
                        | Some (JStr p) => Some p
                        | _ => None
                        end) items
  | _ => []
  end.

(** Prefix-as-directory matching, as section 4.1 requires it:
    [candidate === prefix || candidate.startsWith(prefix + '/')]. *)
Definition matchesDirectory (prefix candidate : string) : bool :=
  String.eqb candidate prefix || JS.startsWith candidate (prefix +:+ "/").

End Tools.

(** ** The file browser: [buildFileTree] *)

Module FileBrowser.

(** The argument type [{ path: string; content: string }]. *)
Record File := {
  path : string;
  content : string
}.

Global Instance File_eq_dec : EqDecision File.
Proof. solve_decision. Defined.

Inductive NodeType := file | folder.

Global Instance NodeType_eq_dec : EqDecision NodeType.
Proof. solve_decision. Defined.

(** The fields of a [FileNode] object that are set at construction and never
    assigned again.  The [children] array of a folder node is mutated in
    place while the tree is built: it lives in the heap below. *)
Record Node := {
  name : string;
  nodePath : string;
  type : NodeType;
  nodeFile : option File
}.

Global Instance Node_eq_dec : EqDecision Node.
Proof. solve_decision. Defined.

(** The [FileNode] forest the function returns, read off the heap. *)
#[warnings="-register-all"]
Inductive FileNode :=
| FNode (node : Node) (children : option (list FileNode)).

(** The objects [buildFileTree] allocates.  [tree] is the root array.
    [folderMap] is the source's [Map<string, FileNode>]: it maps the path of
    a folder to that folder's node, here to the node's [children] array; the
    arrays of the tree and the arrays reached through the map are the same
    objects, so a [push] through one is seen through the other. *)
Record Heap := {
  tree : list Node;
  folderMap : gmap string (list Node)
}.

(** [currentLevel]: a reference to the root array or to the [children] array
    of the folder node with the given path. *)
Inductive LevelRef :=
| rootLevel
| childrenOf (folderPath : string).

Global Instance LevelRef_eq_dec : EqDecision LevelRef.
Proof. solve_decision. Defined.

Definition readLevel (h : Heap) (r : LevelRef) : list Node :=
  match r with
  | rootLevel => tree h
  | childrenOf p => default [] (folderMap h !! p)
  end.

Definition writeLevel (h : Heap) (r : LevelRef) (l : list Node) : Heap :=
  match r with
  | rootLevel => {| tree := l; folderMap := folderMap h |}
  | childrenOf p => {| tree := tree h; folderMap := <[p := l]> (folderMap h) |}
  end.

Section Sorting.
Context {A : Type}.
(** A comparator, by the sign of its result. *)
Variable compareFn : A → A → comparison.

(** [a] may stand before [b]: the comparator does not say "greater". *)
Definition before (a b : A) : Prop := compareFn a b ≠ Gt.

Fixpoint insertSorted (x : A) (l : list A) : list A :=
  match l with
  | [] => [x]
  | y :: l' =>
      match compareFn x y with
      | Gt => y :: insertSorted x l'
      | _ => x :: y :: l'
      end
  end.

(** [Array.prototype.sort(compareFn)]: a stable sort, here by insertion
    (an element stays in front of the later elements it ties with). *)
Definition sort (l : list A) : list A := foldr insertSorted [] l.
End Sorting.

Section Collation.
(** [a.localeCompare(b)], by the sign of its result.  The collation is the
    host's; the model takes it as a parameter. *)
Variable localeCompare : string → string → comparison.

(** The comparator of both [currentLevel.sort] calls. *)
Definition compareNodes (a b : Node) : comparison :=
  match type a, type b with
  | folder, file => Lt
  | file, folder => Gt
  | _, _ => localeCompare (name a) (name b)
  end.

(** [currentLevel.push(node); currentLevel.sort(...)] *)
Definition pushSort (currentLevel : LevelRef) (node : Node) (h : Heap) : Heap :=
  writeLevel h currentLevel (sort compareNodes (readLevel h currentLevel ++ [node])).

(** [file.path.split('/').filter(part => part.length > 0)] *)
Definition pathParts (p : string) : list string :=
  List.filter (fun part => 0 <? String.length part) (JS.split "/" p).

(** The body of the loop over [sortedFiles] for one file, from the state
    ([currentPath], [currentLevel]) reached after some folders:
    the remaining folders are looked up in [folderMap] or created, then the
    file node is pushed.  A path without any segment makes the source read
    [pathParts[-1]], which is [undefined]; the model stops there. *)
Fixpoint addFile (f : File) (parts : list string) (currentPath : string)
    (currentLevel : LevelRef) (h : Heap) : option Heap :=
  match parts with
  | [] => None
  | [fileName] =>
      Some (pushSort currentLevel
              {| name := fileName; nodePath := path f; type := file;
                 nodeFile := Some f |} h)
  | folderName :: rest =>
      let currentPath := currentPath +:+ "/" +:+ folderName in
      let h :=
        match folderMap h !! currentPath with
        | Some _ => h
        | None =>
            pushSort currentLevel
              {| name := folderName; nodePath := currentPath; type := folder;
                 nodeFile := None |}
              {| tree := tree h; folderMap := <[currentPath := []]> (folderMap h) |}
        end in
      addFile f rest currentPath (childrenOf currentPath) h
  end.

(** The loop over [sortedFiles]. *)
Fixpoint addFiles (fs : list File) (h : Heap) : option Heap :=
  match fs with
  | [] => Some h
  | f :: fs' =>
      match addFile f (pathParts (path f)) "" rootLevel h with
      | Some h' => addFiles fs' h'
      | None => None
      end
  end.

(** The forest below an array: every folder node with the forest below its
    [children] array, down to the given depth. *)
Fixpoint forest (depth : nat) (h : Heap) (level : list Node) : list FileNode :=
  match depth with
  | 0 =>
      List.map (fun n => FNode n (match type n with
                                  | file => None
                                  | folder => Some []
                                  end)) level
  | S d =>
      List.map (fun n => FNode n (match type n with
                                  | file => None
                                  | folder =>
                                      Some (forest d h (readLevel h (childrenOf (nodePath n))))
                                  end)) level
  end.

(** No folder lies deeper than the longest path has segments. *)
Definition depthBound (fs : list File) : nat :=
  foldr (fun f d => Nat.max (length (pathParts (path f))) d) 0 fs.

Definition buildFileTree (files : list File) : option (list FileNode) :=
  let sortedFiles :=
    sort (fun a b => localeCompare (path a) (path b)) files in
  match addFiles sortedFiles {| tree := []; folderMap := ∅ |} with
  | Some h => Some (forest (depthBound files) h (tree h))
  | None => None
  end.
End Collation.

(** *** Reading the forest *)

Definition nodeOf (t : FileNode) : Node := match t with FNode n _ => n end.

Definition childrenOfNode (t : FileNode) : option (list FileNode) :=
  match t with FNode _ c => c end.

(** All nodes of a forest, parents before children. *)
Fixpoint nodes (t : FileNode) : list Node :=
  match t with
  | FNode n None => [n]
  | FNode n (Some c) => n :: flat_map nodes c
  end.

Definition allNodes (f : list FileNode) : list Node := flat_map nodes f.

(** The nodes [forest] reads below a node at the given depth. *)
Definition below (d : nat) (h : Heap) (c : Node) : list Node :=
  match type c with
  | file => []
  | folder => allNodes (forest d h (readLevel h (childrenOf (nodePath c))))
  end.

(** Every sibling list of the forest: the roots, and the children of every
    folder node. *)
Fixpoint levels (t : FileNode) : list (list Node) :=
  match t with
  | FNode _ None => []
  | FNode _ (Some c) => List.map nodeOf c :: flat_map levels c
  end.

Definition allLevels (f : list FileNode) : list (list Node) :=
  List.map nodeOf f :: flat_map levels f.

(** How often a file node, respectively a folder node, with the given path
    occurs in the forest. *)
Definition countFileNodes (p : string) (f : list FileNode) : nat :=
  length (List.filter (fun n => bool_decide (type n = file ∧ nodePath n = p)) (allNodes f)).

Definition countFolderNodes (p : string) (f : list FileNode) : nat :=
  length (List.filter (fun n => bool_decide (type n = folder ∧ nodePath n = p)) (allNodes f)).

(** The order the specification asks of siblings: a folder before a file, or the same
    type and names in ascending order. *)
Definition siblingOrder (localeCompare : string → string → comparison)
    (a b : Node) : Prop :=
  (type a = folder ∧ type b = file)
  ∨ (type a = type b ∧ localeCompare (name a) (name b) ≠ Gt).

(** [d] is a strict directory prefix of [p]: [p] continues with a slash. *)
Definition directoryOf (d p : string) : Prop :=
  d ≠ "" ∧ ∃ rest, rest ≠ "" ∧ p = d +:+ "/" +:+ rest.

(** *** Paths as segment lists *)

(** A path segment: not empty, no slash. *)
Definition validSegment (s : string) : Prop :=
  s ≠ "" ∧ JS.contains "/" s = false.

(** [currentPath] after the folders [segs]: ["/" + s] for each of them. *)
Fixpoint joinPath (segs : list string) : string :=
  match segs with
  | [] => ""
  | s :: rest => "/" +:+ s +:+ joinPath rest
  end.

(** [currentLevel] after the folders [segs]. *)
Definition levelRef (segs : list string) : LevelRef :=
  match segs with
  | [] => rootLevel
  | _ :: _ => childrenOf (joinPath segs)
  end.

Definition fileNode (s : string) (f : File) : Node :=
  {| name := s; nodePath := path f; type := file; nodeFile := Some f |}.

Definition folderNode (s p : string) : Node :=
  {| name := s; nodePath := p; type := folder; nodeFile := None |}.

(** *** The invariant of the loop *)

(** The nodes the array below the folders [ks] holds once the files [F] are
    added and the folders [Dirs] exist: a folder node for every folder of
    [Dirs] directly below, a file node for every file of [F] directly
    below. *)
Definition expected (Dirs : list string → Prop) (F : list File)
    (ks : list string) (n : Node) : Prop :=
  (∃ s, n = folderNode s (joinPath (ks ++ [s])) ∧ Dirs (ks ++ [s]))
  ∨ (∃ f s, f ∈ F ∧ pathParts (path f) = ks ++ [s] ∧ n = fileNode s f).

(** The shape of a heap: the folders that exist are [Dirs], the array below
    each folder (and the root array) holds the nodes [E] tells, without
    repetition and in sibling order. *)
Record Shape (localeCompare : string → string → comparison)
    (Dirs : list string → Prop) (E : list string → Node → Prop)
    (h : Heap) : Prop := {
  shape_keys : ∀ k, is_Some (folderMap h !! k) ↔ ∃ ks, k = joinPath ks ∧ Dirs ks;
  shape_level : ∀ ks, ks = [] ∨ Dirs ks →
                ∀ n, n ∈ readLevel h (levelRef ks) ↔ E ks n;
  shape_NoDup : ∀ r, NoDup (readLevel h r);
  shape_sorted : ∀ r, StronglySorted (siblingOrder localeCompare) (readLevel h r)
}.

Definition Inv (localeCompare : string → string → comparison)
    (Dirs : list string → Prop) (F : list File) (h : Heap) : Prop :=
  Shape localeCompare Dirs (expected Dirs F) h.

(** The folders are proper paths, closed under taking the parent, and
    comprise the folders of the files. *)
Record DirsOK (Dirs : list string → Prop) (F : list File) : Prop := {
  dirs_valid : ∀ ks, Dirs ks → ks ≠ [] ∧ Forall validSegment ks;
  dirs_closed : ∀ ks s, Dirs (ks ++ [s]) → ks = [] ∨ Dirs ks;
  dirs_files : ∀ f ks rest, f ∈ F → pathParts (path f) = ks ++ rest →
               ks ≠ [] → rest ≠ [] → Dirs ks
}.

(** The folders of a list of files: the non-empty proper prefixes of their
    segment lists. *)
Definition isDir (F : list File) (ks : list string) : Prop :=
  ks ≠ [] ∧ ∃ f rest, f ∈ F ∧ rest ≠ [] ∧ pathParts (path f) = ks ++ rest.

Definition wellFormedFile (f : File) : Prop := FS.wellFormedPath (path f) = true.

(** The folders a file adds from the state after [ks], with [rest] to go. *)
Definition newDirs (ks rest x : list string) : Prop :=
  ∃ pre post, rest = pre ++ post ∧ pre ≠ [] ∧ post ≠ [] ∧ x = ks ++ pre.

(** Code-unit order, a collation to run the function with. *)
Definition codeUnitCompare (a b : string) : comparison := String.compare a b.

End FileBrowser.

(** ** src/lib/artifacts.ts, continued *)

Definition artifactLanguage (path : string) : string :=
  let ext := JS.lower_or_empty (JS.pop (JS.split "." path)) in
  let basename := JS.lower_or_empty (JS.pop (JS.split "/" path)) in
  if String.eqb basename "dockerfile" || JS.startsWith basename "dockerfile."
  then "dockerfile"
  else if String.eqb basename "makefile" || JS.startsWith basename "makefile."
  then "makefile"
  else ext.

(** ** More JavaScript primitives: arrays of strings, [trim], [Set<string>] *)

Module JSLib.

(** [arr.join(sep)]. *)
Fixpoint join (sep : string) (l : list string) : string :=
  match l with
  | [] => EmptyString
  | [x] => x
  | x :: rest => x +:+ sep +:+ join sep rest
  end.

(** [arr[arr.length - 1] = v] for an array that is not empty (on the empty
    array the assignment sets the property [-1], not an element). *)
Fixpoint setLast (v : string) (l : list string) : list string :=
  match l with
  | [] => []
  | [_] => [v]
  | x :: rest => x :: setLast v rest
  end.

(** What [trim] removes: ECMAScript's white space (TAB, VT, FF, the
    characters of Unicode's category Zs, and U+FEFF) and line terminators
    (LF, CR, U+2028, U+2029), given by code point. *)
Definition whiteSpace : list N :=
  [ 0x9; 0xA; 0xB; 0xC; 0xD; 0x20; 0xA0; 0x1680;
    0x2000; 0x2001; 0x2002; 0x2003; 0x2004; 0x2005; 0x2006; 0x2007;
    0x2008; 0x2009; 0x200A; 0x2028; 0x2029; 0x202F; 0x205F; 0x3000;
    0xFEFF ]%N.

(** The string without the prefix, when it starts with it. *)
Fixpoint stripPrefix (p s : string) : option string :=
  match p, s with
  | EmptyString, _ => Some s
  | String c p', String x s' => if Ascii.eqb x c then stripPrefix p' s' else None
  | String _ _, EmptyString => None
  end.

(** The string without its first character, when that is one of [spaces]. *)
Definition dropSpace (spaces : list string) (s : string) : option string :=
  foldr (fun w rest => match stripPrefix w s with
                       | Some r => Some r
                       | None => rest
                       end) None spaces.

(** [n] times: drop a leading character that is one of [spaces]. *)
Fixpoint dropSpaces (spaces : list string) (n : nat) (s : string) : string :=
  match n with
  | 0 => s
  | S n' =>
      match dropSpace spaces s with
      | Some s' => dropSpaces spaces n' s'
      | None => s
      end
  end.

(** [s.trimStart()]: no string has more leading characters than bytes. *)
Definition trimStart (s : string) : string :=
  dropSpaces (List.map JS.utf8 whiteSpace) (String.length s) s.

(** [s.trimEnd()]: the same from the end, on the reversed bytes. *)
Definition trimEnd (s : string) : string :=
  String.rev
    (dropSpaces (List.map (fun cp => String.rev (JS.utf8 cp)) whiteSpace)
       (String.length s) (String.rev s)).

(** [s.trim()]. *)
Definition trim (s : string) : string := trimEnd (trimStart s).

(** The string without its first [n] bytes.  For a string [s] that starts
    with [p], [s.substring(p.length)] is [substringFrom (String.length p) s]:
    what follows [p], the same in code units and in bytes. *)
Fixpoint substringFrom (n : nat) (s : string) : string :=
  match n, s with
  | 0, _ => s
  | S n', String _ s' => substringFrom n' s'
  | S _, EmptyString => EmptyString
  end.

End JSLib.

(** A [Set<string>]: its elements in insertion order, which is the order
    [Array.from] and [for ... of] see. *)
Module JSSet.

Definition t := list string.

Definition has (x : string) (s : t) : bool := bool_decide (x ∈ s).

(** [s.add(x)]: an element that is present keeps its place. *)
Definition add (x : string) (s : t) : t := if has x s then s else s ++ [x].

(** [s.delete(x)]. *)
Definition delete (x : string) (s : t) : t :=
  List.filter (fun y => negb (String.eqb y x)) s.

(** [Array.from(s)]. *)
Definition toArray (s : t) : list string := s.

End JSSet.

(** ** The file browser component: [FileTreeNode] and [ArtifactsBrowser] *)

Module Browser.
Import FileBrowser.

(** The new path [saveRename] and [handleRenameKeyDown] compute:
    [pathParts = node.path.split('/')], the last part replaced by the
    trimmed input, joined again. *)
Definition renamePath (nodePath renamingValue : string) : string :=
  JSLib.join "/" (JSLib.setLast (JSLib.trim renamingValue) (JS.split "/" nodePath)).

(** [saveRename] (and the Enter key): the call of [onRenameFile], if there
    is one; [onCancelRename] follows in every case. *)
Definition saveRename (node : Node) (renamingValue : string)
  : option (string * string) :=
  if negb (String.eqb (JSLib.trim renamingValue) "")
     && negb (String.eqb renamingValue (name node))
  then Some (nodePath node, renamePath (nodePath node) renamingValue)
  else None.

(** The rows [FileTreeNode] renders for a node, top to bottom, each with
    its [level]: the children of a folder are rendered when the folder is
    in [expandedFolders]. *)
Fixpoint rows (expandedFolders : JSSet.t) (level : nat) (t : FileNode)
  : list (Node * nat) :=
  match t with
  | FNode n c =>
      (n, level) ::
      match type n, c with
      | folder, Some children =>
          if JSSet.has (nodePath n) expandedFolders
          then flat_map (rows expandedFolders (S level)) children
          else []
      | _, _ => []
      end
  end.

(** The rows of the whole tree: [fileTree.map(node => <FileTreeNode level={0} />)]. *)
Definition treeRows (expandedFolders : JSSet.t) (fileTree : list FileNode)
  : list (Node * nat) :=
  flat_map (rows expandedFolders 0) fileTree.

(** The [fileCreated] handler: every parent folder of the path is added. *)
Fixpoint expandParents (parts : list string) (currentPath : string)
    (newExpanded : JSSet.t) : JSSet.t :=
  match parts with
  | [] => newExpanded
  | [_] => newExpanded
  | part :: rest =>
      let currentPath := currentPath +:+ "/" +:+ part in
      expandParents rest currentPath (JSSet.add currentPath newExpanded)
  end.

Definition onFileCreated (path : string) (prev : JSSet.t) : JSSet.t :=
  expandParents (pathParts path) "" prev.

(** The [fileDeleted] handler on [expandedFolders]. *)
Definition onFileDeleted (path : string) (prev : JSSet.t) : JSSet.t :=
  let newExpanded := JSSet.delete path prev in
  let expandedArray := JSSet.toArray newExpanded in
  foldl (fun newExpanded expandedPath =>
           if JS.startsWith expandedPath (path +:+ "/")
           then JSSet.delete expandedPath newExpanded
           else newExpanded)
        newExpanded expandedArray.

(** The [fileDeleted] handler on [renamingFile]. *)
Definition onFileDeletedRenaming (path : string) (prev : option string)
  : option string :=
  match prev with
  | Some p => if String.eqb p path then None else prev
  | None => prev
  end.

(** The [fileRenamed] handler on [expandedFolders]. *)
Definition onFileRenamed (oldPath newPath : string) (prev : JSSet.t) : JSSet.t :=
  let newExpanded :=
    if JSSet.has oldPath prev
    then JSSet.add newPath (JSSet.delete oldPath prev)
    else prev in
  let expandedArray := JSSet.toArray newExpanded in
  foldl (fun newExpanded expandedPath =>
           if JS.startsWith expandedPath (oldPath +:+ "/")
           then
             let relativePath :=
               JSLib.substringFrom (String.length oldPath) expandedPath in
             let newExpandedPath := newPath +:+ relativePath in
             JSSet.add newExpandedPath (JSSet.delete expandedPath newExpanded)
           else newExpanded)
        newExpanded expandedArray.

(** The [fileRenamed] handler on [renamingFile]. *)
Definition onFileRenamedRenaming (oldPath newPath : string)
    (prev : option string) : option string :=
  match prev with
  | Some p => if String.eqb p oldPath then Some newPath else prev
  | None => prev
  end.

Definition handleToggleFolder (path : string) (expandedFolders : JSSet.t)
  : JSSet.t :=
  if JSSet.has path expandedFolders
  then JSSet.delete path expandedFolders
  else JSSet.add path expandedFolders.

(** [handleDeleteFolder]: the path [fs.deleteFile] is called with, if it is
    called.  [confirmed] is the answer [window.confirm] gets. *)
Definition handleDeleteFolder (files : list File) (confirmed : bool)
    (path : string) : option string :=
  let affectedFiles :=
    List.filter (fun f => JS.startsWith (FileBrowser.path f) (path +:+ "/")) files in
  if length affectedFiles =? 0 then None
  else if confirmed then Some path else None.

(** The expanded folders two rename targets must not share: neither path
    lies inside (or is) the other. *)
Definition apart (oldPath newPath : string) : Prop :=
  JS.startsWith (newPath +:+ "/") (oldPath +:+ "/") = false
  ∧ JS.startsWith (oldPath +:+ "/") (newPath +:+ "/") = false.

(** The parent of every node of a forest, with the node: the given path for
    the roots, the path of the folder node for its children. *)
Fixpoint links (parent : string) (t : FileNode) : list (string * Node) :=
  match t with
  | FNode n None => [(parent, n)]
  | FNode n (Some c) => (parent, n) :: flat_map (links (nodePath n)) c
  end.

End Browser.

(** ** [create_file] on arguments of any type

    [args.path as string] is an unchecked cast: the function runs on
    whatever value the field holds.  Of the five tools that read arguments,
    [create_file] is the one that calls a string method on an argument
    before the Store has seen it ([path.startsWith], outside the [try]). *)

Module Untyped.
Import FS Tools.

(** The value of [args.k]: what [JSON.parse] can yield there ([Json], a
    number being given by a natural number), [None] for [undefined]. *)
Definition Value := option Json.

(** [!!v]. *)
Definition truthy (v : Value) : bool :=
  match v with
  | None | Some JNull => false
  | Some (JBool b) => b
  | Some (JNum n) => negb (n =? 0)
  | Some (JStr s) => negb (String.eqb s "")
  | Some (JArr _) | Some (JObj _) => true
  end.

(** Does the conversion to a string (as in a template literal) throw?
    It does for an object with a field [toString] (a parsed value is no
    function, and [valueOf] gives no primitive), and for an array, which
    joins the conversions of its elements, when it does for an element. *)
#[warnings="-register-all"]
Fixpoint unprintable (v : Json) : bool :=
  match v with
  | JObj fields => existsb (fun kv => String.eqb (fst kv) "toString") fields
  | JArr items => existsb unprintable items
  | _ => false
  end.

(** How a call of the tool function ends. *)
Inductive Completion :=
| Resolves (o : Outcome)
  (** it returns [JSON.stringify] of the response *)
| Rejects
  (** a [TypeError] is thrown outside the [try]: the promise rejects and
      there is no response *)
| StoreDecides.
  (** [fs.createFile] is called with a content that is no string, on which
      the Store's contract is silent *)

Definition create_file (fs : option FileSystemManager) (args : gmap string Json)
  : Completion :=
  let path := args !! "path" in
  let content := args !! "content" in
  if from_option unprintable false path then Rejects
  else if negb (truthy path) || negb (truthy content)
  then Resolves (reply fs (failure "Path and content are required"))
  else
    match path with
    | Some (JStr path) =>
        if negb (JS.startsWith path "/")
        then Resolves (reply fs (failure "Path must start with /"))
        else
          match fs with
          | None => Resolves (reply fs (failure "File system not available"))
          | Some m =>
              match content with
              | Some (JStr content) =>
                  match createFile m path content with
                  | Ok (_, m') =>
                      Resolves
                        {| response := JObj [("success", JBool true);
                                             ("message", JStr ("File created: " +:+ path));
                                             ("path", JStr path)];
                           store := Some m';
                           calls := [createFileCall path content] |}
                  | Throw _ =>
                      Resolves
                        {| response := failure "Failed to create file";
                           store := Some m;
                           calls := [createFileCall path content] |}
                  end
              | _ => StoreDecides
              end
          end
    | _ => Rejects
    end.

(** The argument is a value on which [create_file] throws. *)
Definition rejected (args : gmap string Json) : bool :=
  let path := args !! "path" in
  from_option unprintable false path
  || (truthy path && truthy (args !! "content")
      && match path with Some (JStr _) => false | _ => true end).

End Untyped.

(** * Properties *)

(** ** Strings *)

Section StringFacts.
Implicit Types (s a b : string) (c x : ascii).

Lemma sapp_cons x a b : String x a +:+ b = String x (a +:+ b).
Proof. reflexivity. Qed.

Lemma sapp_nil_l b : "" +:+ b = b.
Proof. reflexivity. Qed.

Lemma sapp_nil_r a : a +:+ "" = a.
Proof. induction a as [|x a IH]; [done|]. by rewrite sapp_cons, IH. Qed.

Lemma sapp_assoc a b s : (a +:+ b) +:+ s = a +:+ (b +:+ s).
Proof. induction a as [|x a IH]; [done|]. by rewrite !sapp_cons, IH. Qed.

Lemma contains_app c a b :
  JS.contains c (a +:+ b) = JS.contains c a || JS.contains c b.
Proof.
  induction a as [|x a IH]; [done|].
  rewrite sapp_cons. simpl. rewrite IH. by rewrite orb_assoc.
Qed.

Lemma split_not_nil c s : JS.split c s ≠ [].
Proof.
  destruct s as [|x s]; simpl; [done|].
  destruct (Ascii.eqb x c); [done|]. by destruct (JS.split c s).
Qed.

Lemma split_no_sep c s : JS.contains c s = false → JS.split c s = [s].
Proof.
  induction s as [|x s IH]; simpl; [done|].
  intros [Hx Hs]%orb_false_iff. rewrite Hx, (IH Hs). done.
Qed.

Lemma split_sep c s :
  JS.contains c s = true → ∃ h h' t, JS.split c s = h :: h' :: t.
Proof.
  induction s as [|x s IH]; simpl; [done|].
  destruct (Ascii.eqb x c) eqn:Hx; simpl.
  - intros _. pose proof (split_not_nil c s).
    destruct (JS.split c s) as [|h t]; [done|]. by exists "", h, t.
  - intros (h & h' & t & ->)%IH. by exists (String x h), h', t.
Qed.

Lemma pop_split_String c x s :
  JS.pop (JS.split c (String x s))
  = if Ascii.eqb x c || JS.contains c s then JS.pop (JS.split c s)
    else Some (String x s).
Proof.
  simpl. destruct (Ascii.eqb x c) eqn:Hx; simpl.
  - pose proof (split_not_nil c s). by destruct (JS.split c s).
  - destruct (JS.contains c s) eqn:Hs.
    + by destruct (split_sep c s Hs) as (h & h' & t & ->).
    + by rewrite split_no_sep.
Qed.

(** The part after the last separator lies in a suffix that has one. *)
Lemma pop_split_app_sep c a b :
  JS.contains c b = true →
  JS.pop (JS.split c (a +:+ b)) = JS.pop (JS.split c b).
Proof.
  intros Hb. induction a as [|x a IH]; [done|].
  rewrite sapp_cons, pop_split_String, contains_app, Hb, orb_true_r, orb_true_r.
  exact IH.
Qed.

(** A suffix without separator extends the last part. *)
Lemma pop_split_app_no_sep c a b :
  JS.contains c b = false →
  JS.pop (JS.split c (a +:+ b)) = (λ l, l +:+ b) <$> JS.pop (JS.split c a).
Proof.
  intros Hb. induction a as [|x a IH].
  - by rewrite sapp_nil_l, split_no_sep.
  - rewrite sapp_cons, !pop_split_String, contains_app, Hb, orb_false_r.
    by destruct (Ascii.eqb x c || JS.contains c a).
Qed.

Lemma pop_split_is_Some c s : is_Some (JS.pop (JS.split c s)).
Proof.
  induction s as [|x s IH]; [by eexists|].
  rewrite pop_split_String. destruct (_ || _); [done|by eexists].
Qed.

Lemma caseless_dot : caseless ".".
Proof. intros [[] [] [] [] [] [] [] []]; reflexivity. Qed.

Lemma caseless_slash : caseless "/".
Proof. intros [[] [] [] [] [] [] [] []]; reflexivity. Qed.

Lemma toLowerCase_app a b :
  JS.toLowerCase (a +:+ b) = JS.toLowerCase a +:+ JS.toLowerCase b.
Proof. induction a as [|x a IH]; [done|]. rewrite sapp_cons. simpl. by rewrite IH. Qed.

Lemma contains_toLowerCase c s :
  caseless c → JS.contains c (JS.toLowerCase s) = JS.contains c s.
Proof. intros Hc. induction s as [|x s IH]; [done|]. simpl. by rewrite Hc, IH. Qed.

Lemma split_toLowerCase c s :
  caseless c → JS.split c (JS.toLowerCase s) = JS.toLowerCase <$> JS.split c s.
Proof.
  intros Hc. induction s as [|x s IH]; [done|].
  simpl. rewrite Hc, IH. destruct (Ascii.eqb x c); [done|].
  by destruct (JS.split c s).
Qed.

(** Lowering the last part is taking the last part of the lowered string. *)
Lemma lower_pop_split c s :
  caseless c →
  JS.lower_or_empty (JS.pop (JS.split c s))
  = default "" (JS.pop (JS.split c (JS.toLowerCase s))).
Proof.
  intros Hc. rewrite split_toLowerCase by done. unfold JS.pop.
  rewrite fmap_last. by destruct (last (JS.split c s)).
Qed.

Lemma eqb_contains c a b :
  JS.contains c a = true → JS.contains c b = false → String.eqb a b = false.
Proof.
  intros Ha Hb. apply String.eqb_neq. intros ->. congruence.
Qed.

Lemma startsWith_slash s : JS.startsWith s "/" = true → ∃ s', s = String "/" s'.
Proof.
  destruct s as [|x s]; simpl; [done|].
  destruct (Ascii.eqb_spec x "/") as [->|]; [by exists s|done].
Qed.
End StringFacts.

(** ** The classifier *)

Section Classifier.

Lemma artifactKind_verdict p :
  artifactKind p
  = verdict (JS.lower_or_empty (JS.pop (JS.split "." p)))
            (JS.lower_or_empty (JS.pop (JS.split "/" p))).
Proof. reflexivity. Qed.

(** The verdict is a function of the lowered path. *)
Lemma artifactKind_lower p :
  artifactKind p
  = verdict (default "" (JS.pop (JS.split "." (JS.toLowerCase p))))
            (default "" (JS.pop (JS.split "/" (JS.toLowerCase p)))).
Proof.
  rewrite artifactKind_verdict.
  by rewrite (lower_pop_split "." p caseless_dot), (lower_pop_split "/" p caseless_slash).
Qed.

Lemma includes_slash l e :
  JS.contains "/" e = true →
  forallb (λ s, negb (JS.contains "/" s)) l = true →
  includes l e = false.
Proof.
  intros He. unfold includes. induction l as [|s l IH]; simpl; [done|].
  intros [Hs Hl]%andb_true_iff. rewrite (IH Hl), orb_false_r.
  apply (eqb_contains "/"); [done|]. by apply negb_true_iff.
Qed.

(** No entry of the extension table has a slash: an "extension" with a slash
    in it falls through every extension test. *)
Lemma verdict_slash e e' b :
  JS.contains "/" e = true → JS.contains "/" e' = true →
  verdict e b = verdict e' b.
Proof.
  intros He He'. unfold verdict.
  rewrite !(eqb_contains "/" e), !(eqb_contains "/" e') by done.
  by rewrite !includes_slash.
Qed.

Lemma final_segment_pop p seg :
  final_segment p seg → JS.pop (JS.split "/" p) = Some seg.
Proof.
  intros [Hseg [->|[dir ->]]].
  - by rewrite split_no_sep.
  - rewrite pop_split_app_sep by done.
    change ("/" +:+ seg) with (String "/" seg).
    rewrite pop_split_String. simpl. by rewrite split_no_sep.
Qed.

(** The extension of an absolute path: the one of its final segment when
    that has a dot, and a string with a slash otherwise. *)
Lemma absolute_ext p seg :
  absolute p = true → final_segment p seg →
  let ext := JS.lower_or_empty (JS.pop (JS.split "." p)) in
  if JS.contains "." seg
  then ext = JS.lower_or_empty (JS.pop (JS.split "." seg))
  else JS.contains "/" ext = true.
Proof.
  intros Habs [Hseg Hp]. destruct Hp as [->|[dir ->]].
  { apply startsWith_slash in Habs as [s' ->]. simpl in Hseg. done. }
  simpl. destruct (JS.contains "." seg) eqn:Hdot.
  - rewrite pop_split_app_sep; [|by rewrite contains_app, Hdot, orb_true_r].
    change ("/" +:+ seg) with (String "/" seg).
    by rewrite pop_split_String, Hdot.
  - rewrite pop_split_app_no_sep by (by rewrite contains_app, Hdot).
    destruct (pop_split_is_Some "." dir) as [l ->]. simpl.
    rewrite toLowerCase_app, contains_app.
    rewrite (contains_toLowerCase "/" ("/" +:+ seg) caseless_slash).
    apply orb_true_r.
Qed.

End Classifier.

(** C6. A path whose final slash-separated segment, lowercased, is
    [dockerfile] or [makefile] or begins with [dockerfile.] or [makefile.] is
    classified [code], whatever its extension is: the reserved basenames are
    tested before the extension table. *)
Theorem artifactKind_reserved_basename (p seg : string) :
  final_segment p seg →
  (JS.toLowerCase seg = "dockerfile" ∨ JS.toLowerCase seg = "makefile"
   ∨ JS.startsWith (JS.toLowerCase seg) "dockerfile." = true
   ∨ JS.startsWith (JS.toLowerCase seg) "makefile." = true) →
  artifactKind p = code.
Proof.
  intros Hp Hseg. unfold artifactKind.
  rewrite (final_segment_pop p seg Hp). simpl JS.lower_or_empty.
  destruct Hseg as [->|[->|[->| ->]]]; [done|done|..].
  - by rewrite orb_true_r.
  - rewrite orb_true_r. by destruct (_ || _).
Qed.

Lemma artifactKind_reserved_basename_witness :
  artifactKind "/docs/Dockerfile.md" = code.
Proof.
  apply (artifactKind_reserved_basename "/docs/Dockerfile.md" "Dockerfile.md").
  - split; [reflexivity|]. right. exists "/docs". reflexivity.
  - right. right. left. reflexivity.
Defined.

(** The extension alone would have said [markdown]. *)
Example extension_of_Dockerfile_md : artifactKind "/docs/notes.md" = markdown.
Proof. reflexivity. Qed.

(** C7. On absolute paths [artifactKind] depends on the final segment only:
    two paths that begin with a slash and have the same final segment get the
    same category, although the extension is cut from the whole path.  (A dot
    in a directory segment yields an "extension" with a slash in it, which no
    entry of the table matches.) *)
Theorem artifactKind_basename_only (p q seg : string) :
  absolute p = true → absolute q = true →
  final_segment p seg → final_segment q seg →
  artifactKind p = artifactKind q.
Proof.
  intros Hp Hq Hps Hqs. rewrite !artifactKind_verdict.
  rewrite (final_segment_pop p seg Hps), (final_segment_pop q seg Hqs).
  pose proof (absolute_ext p seg Hp Hps) as Ep.
  pose proof (absolute_ext q seg Hq Hqs) as Eq. simpl in Ep, Eq.
  destruct (JS.contains "." seg).
  - by rewrite Ep, Eq.
  - by apply verdict_slash.
Qed.

Lemma artifactKind_basename_only_witness :
  artifactKind "/v1.2/notes" = artifactKind "/docs/notes".
Proof.
  apply (artifactKind_basename_only "/v1.2/notes" "/docs/notes" "notes");
    try reflexivity.
  - split; [reflexivity|]. right. exists "/v1.2". reflexivity.
  - split; [reflexivity|]. right. exists "/docs". reflexivity.
Defined.

(** For a relative path the whole path can be the "extension": the premise
    that the paths are absolute is needed. *)
Example artifactKind_relative_path :
  artifactKind "md" = markdown ∧ artifactKind "/docs/md" = text.
Proof. split; reflexivity. Qed.

(** C8.  [artifactKind] is insensitive to the case of the ASCII letters:
    replacing the final segment (indeed any suffix) of a path by a string
    that differs from it in the case of letters [A]..[Z], [a]..[z] only
    leaves the category unchanged. *)
Theorem artifactKind_case_insensitive (dir seg seg' : string) :
  JS.toLowerCase seg = JS.toLowerCase seg' →
  artifactKind (dir +:+ seg) = artifactKind (dir +:+ seg').
Proof.
  intros H. rewrite !artifactKind_lower, !toLowerCase_app. by rewrite H.
Qed.

Lemma artifactKind_case_insensitive_witness :
  artifactKind "/site/Index.HTML" = artifactKind "/site/index.html".
Proof.
  apply (artifactKind_case_insensitive "/site/" "Index.HTML" "index.html").
  reflexivity.
Defined.

(** C8, for every letter: the category changes with the case of a letter
    outside ASCII.  The long s (U+017F) is a lower-case letter, its upper
    case is [S]: [/a.ſ] has the extension [ſ], which is no code extension,
    and the upper-case form of its final segment, [A.S], has the extension
    [s], which is one. *)
Lemma artifactKind_long_s :
  JS.utf8 0x17F = "ſ"
  ∧ LetterCase.toUpperCase "a.ſ" = "A.S"
  ∧ artifactKind ("/" +:+ "a.ſ") = text
  ∧ artifactKind ("/" +:+ LetterCase.toUpperCase "a.ſ") = code.
Proof. repeat split; reflexivity. Qed.

(** ** The Store *)

Section Store.
Import FS.
Implicit Types (m : FileSystemManager) (p : string) (r : FileRecord).

Lemma elem_of_listFiles m r :
  r ∈ listFiles m ↔ ∃ k, files m !! k = Some r.
Proof.
  unfold listFiles. rewrite list_elem_of_fmap. split.
  - intros [[k r'] [-> Hk]]. apply elem_of_map_to_list in Hk. by exists k.
  - intros [k H]. exists (k, r). by rewrite elem_of_map_to_list.
Qed.

(** In a consistent store [getFile] finds the record with the given path. *)
Lemma getFile_listFiles m p r :
  consistent m → getFile m p = Some r ↔ r ∈ listFiles m ∧ path r = p.
Proof.
  intros Hm. rewrite elem_of_listFiles. unfold getFile. split.
  - intros H. split; [by exists p|]. exact (Hm _ _ H).
  - intros [[k H] <-]. by rewrite <- (Hm _ _ H) in H.
Qed.

Lemma consistent_empty : consistent empty.
Proof. apply map_Forall_empty. Qed.

Lemma consistent_createFile m p c r m' :
  consistent m → createFile m p c = Ok (r, m') → consistent m'.
Proof.
  unfold createFile, consistent. intros Hm H.
  destruct (negb _); [done|]. destruct (files m !! p); [done|].
  simplify_eq. simpl. by apply map_Forall_insert_2.
Qed.

Lemma consistent_filter m (P : string * FileRecord → Prop)
    `{!∀ kv, Decision (P kv)} v :
  consistent m → consistent {| files := filter P (files m); version := v |}.
Proof.
  unfold consistent. simpl. intros Hm k r [Hk _]%map_lookup_filter_Some.
  exact (Hm _ _ Hk).
Qed.

Lemma consistent_deleteFile m p :
  consistent m → consistent (deleteFile m p).2.
Proof.
  unfold deleteFile. intros Hm. destruct (files m !! p).
  - simpl. unfold consistent. simpl. by apply map_Forall_delete.
  - destruct (existsb _ _); [|done]. simpl. by apply consistent_filter.
Qed.

Lemma consistent_renameFile m old new ok m' :
  consistent m → renameFile m old new = Ok (ok, m') → consistent m'.
Proof.
  unfold renameFile. intros Hm H. destruct (negb _); [done|].
  destruct (files m !! old) as [r|].
  - destruct (files m !! new); simplify_eq; [done|].
    unfold consistent. simpl. apply map_Forall_insert_2; [done|].
    by apply map_Forall_delete.
  - destruct (List.filter _ _) as [|f moved] eqn:Hmoved; simplify_eq; [done|].
    destruct (existsb _ _); simplify_eq; [done|].
    unfold consistent. cbn [files].
    assert (∀ (l : list FileRecord) (acc : gmap string FileRecord),
      map_Forall (λ k r, path r = k) acc →
      map_Forall (λ k r, path r = k)
        (foldl (λ acc f, <[rebase old new (path f) :=
                {| path := rebase old new (path f); content := content f;
                   contentType := contentType f |}]> acc) acc l)) as Hfold.
    { induction l as [|x l IH]; intros acc Hacc; simpl; [done|].
      apply IH. by apply map_Forall_insert_2. }
    apply (Hfold (f :: moved)). by apply (consistent_filter m _ 0).
Qed.

(** Every store built by [ofList] is consistent. *)
Lemma consistent_ofList l : consistent (ofList l).
Proof.
  unfold ofList. assert (∀ m, consistent m → consistent (foldl create m l)) as H.
  { induction l as [|pc l IH]; intros m Hm; simpl; [done|].
    apply IH. unfold create.
    destruct (createFile m pc.1 pc.2) as [[r m']|] eqn:E; [|done].
    by eapply consistent_createFile. }
  apply H, consistent_empty.
Qed.


(** The model against the testable properties of section 8. *)
Example folder_delete_cascades :
  let m := ofList [("/src/a.ts", "a"); ("/src/b.ts", "b"); ("/src2/c.ts", "c")] in
  (deleteFile m "/src").1 = true
  ∧ path <$> listFiles (deleteFile m "/src").2 = ["/src2/c.ts"].
Proof. vm_compute. done. Qed.

Example atomic_subtree_rename :
  let m := ofList [("/src/a.ts", "a"); ("/src/b.ts", "b")] in
  let m' := create m ("/lib/a.ts", "taken") in
  (∃ m1, renameFile m "/src" "/lib" = Ok (true, m1)
         ∧ path <$> listFiles m1 ≡ₚ ["/lib/a.ts"; "/lib/b.ts"])
  ∧ renameFile m' "/src" "/lib" = Ok (false, m').
Proof.
  split; [|by vm_compute]. eexists. split; [by vm_compute|].
  vm_compute. first [reflexivity | apply Permutation_swap].
Qed.

Example no_overwrite_rename :
  let m := ofList [("/x.txt", "x"); ("/y.txt", "y")] in
  renameFile m "/x.txt" "/y.txt" = Ok (false, m).
Proof. by vm_compute. Qed.
End Store.

(** ** The tools *)

Section ToolFacts.
Import FS Tools.
Implicit Types (m : FileSystemManager) (fs : option FileSystemManager)
  (args : gmap string string) (p : string).

(** What [list_files] lists, for a non-empty [directory]: the records whose
    path begins with the characters of [directory]. *)
Lemma list_files_listedPaths m args d :
  args !! "directory" = Some d → d ≠ "" →
  listedPaths (response (list_files (Some m) args))
  = path <$> List.filter (λ f, JS.startsWith (path f) d) (listFiles m).
Proof.
  intros Hd Hne. unfold list_files. rewrite Hd.
  destruct d as [|c d]; [done|].
  generalize (List.filter (λ f, JS.startsWith (path f) (String c d)) (listFiles m)).
  intros l. cbv zeta.
  transitivity
    (omap (λ item, match get "path" item with Some (JStr q) => Some q | _ => None end)
       (List.map (λ file, JObj [("path", JStr (path file));
                                ("size", JNum (JS.length (content file)));
                                ("contentType", JStr (kindName (contentType file)))]) l));
    [reflexivity|].
  induction l as [|f l IH]; [done|]. cbn. by f_equal.
Qed.

Lemma isFolder_spec m p :
  existsb (λ f, JS.startsWith (path f) (p +:+ "/")) (listFiles m) = true
  ↔ ∃ r, r ∈ listFiles m ∧ JS.startsWith (path r) (p +:+ "/") = true.
Proof.
  rewrite existsb_exists. by setoid_rewrite <- list_elem_of_In.
Qed.

(** Without a record at [fromPath], [move_file] answers with an error and
    leaves the Store alone, a folder at [fromPath] or not. *)
Lemma move_file_no_source m args from to :
  args !! "fromPath" = Some from → args !! "toPath" = Some to →
  from ≠ "" → to ≠ "" → getFile m from = None →
  move_file (Some m) args
  = reply (Some m) (failure ("Source file not found: " +:+ from)).
Proof.
  intros Hf Ht Hfne Htne Hget. unfold move_file. rewrite Hf, Ht.
  destruct from; [done|]. destruct to; [done|]. by rewrite Hget.
Qed.
End ToolFacts.

(** C1.  The specification asks [list_files] to match the directory as a path segment
    prefix.  The tool filters with [file.path.startsWith(directory)]: for the
    directory [/src] it also lists the record at [/src2/a.ts], and [/src] and
    [/src/] give different listings. *)
Theorem list_files_raw_prefix :
  let m := FS.ofList [("/src/a.ts", "a"); ("/src2/a.ts", "b")] in
  let listing d :=
    Tools.listedPaths (Tools.response (Tools.list_files (Some m) {["directory" := d]})) in
  In "/src2/a.ts" (listing "/src")
  ∧ Tools.matchesDirectory "/src" "/src2/a.ts" = false
  ∧ ¬ In "/src2/a.ts" (listing "/src/")
  ∧ listing "/src" ≠ listing "/src/".
Proof.
  vm_compute. split; [tauto|]. split; [reflexivity|]. split.
  - intros [E|[]]. discriminate E.
  - discriminate.
Qed.

(** C2.  With records under [/src] and none at [/src] itself, the Store's
    [renameFile] moves the subtree to [/lib]; the [move_file] tool, asked the
    same, stops at its test of [fs.getFile(fromPath)]: it answers
    [Source file not found], calls nothing and leaves every record in place. *)
Theorem move_file_folder_source :
  let m := FS.ofList [("/src/a.ts", "a"); ("/src/b.ts", "b")] in
  let o := Tools.move_file (Some m) (list_to_map [("fromPath", "/src"); ("toPath", "/lib")]) in
  FS.getFile m "/src" = None
  ∧ Tools.response o = Tools.failure "Source file not found: /src"
  ∧ Tools.calls o = []
  ∧ Tools.store o = Some m
  ∧ ∃ m', FS.renameFile m "/src" "/lib" = FS.Ok (true, m')
          ∧ FS.path <$> FS.listFiles m' ≡ₚ ["/lib/a.ts"; "/lib/b.ts"].
Proof.
  vm_compute. repeat split. eexists. split; [reflexivity|].
  vm_compute. first [reflexivity | apply Permutation_swap].
Qed.

(** C2, as the tool has it.  [move_file] moves single records: when
    [fromPath] is not the path of a stored record, with records under
    [fromPath + '/'] or without, it answers [Source file not found], makes
    no Store call and leaves every record in place. *)
Theorem move_file_requires_record
    (m : FS.FileSystemManager) (args : gmap string string) (fromPath toPath : string) :
  args !! "fromPath" = Some fromPath → args !! "toPath" = Some toPath →
  fromPath ≠ "" → toPath ≠ "" →
  FS.getFile m fromPath = None →
  let o := Tools.move_file (Some m) args in
  Tools.response o = Tools.failure ("Source file not found: " +:+ fromPath)
  ∧ Tools.hasSuccess (Tools.response o) = false
  ∧ Tools.calls o = []
  ∧ Tools.store o = Some m.
Proof.
  intros Hf Ht Hfne Htne Hget o. subst o.
  by rewrite (move_file_no_source m args fromPath toPath Hf Ht Hfne Htne Hget).
Qed.

Lemma move_file_requires_record_witness :
  let m := FS.ofList [("/src/a.ts", "a"); ("/src/b.ts", "b")] in
  let o := Tools.move_file (Some m) (list_to_map [("fromPath", "/src"); ("toPath", "/lib")]) in
  Tools.response o = Tools.failure ("Source file not found: " +:+ "/src")
  ∧ Tools.hasSuccess (Tools.response o) = false
  ∧ Tools.calls o = []
  ∧ Tools.store o = Some m.
Proof.
  apply (move_file_requires_record
           (FS.ofList [("/src/a.ts", "a"); ("/src/b.ts", "b")])
           (list_to_map [("fromPath", "/src"); ("toPath", "/lib")])
           "/src" "/lib"); (reflexivity || discriminate).
Defined.

Section UntypedArguments.
Import FS Tools.

(** On arguments that are strings [Untyped.create_file] is [create_file]. *)
Lemma create_file_typed fs (args : gmap string string) :
  Untyped.create_file fs (JStr <$> args) = Untyped.Resolves (create_file fs args).
Proof.
  unfold Untyped.create_file, create_file. rewrite !lookup_fmap.
  destruct (args !! "path") as [[|c p]|]; [done| |done].
  destruct (args !! "content") as [[|c' k]|]; [done| |done].
  cbn [fmap option_fmap option_map from_option Untyped.unprintable
       Untyped.truthy String.eqb negb orb].
  destruct (negb (JS.startsWith _ _)); [done|].
  destruct fs as [m|]; [|done]. by destruct (createFile m _ _) as [[? ?]|?].
Qed.

(** [create_file] throws exactly on the arguments [Untyped.rejected]
    tells, and without a filesystem it otherwise answers with an error. *)
Lemma create_file_rejects fs (args : gmap string Json) :
  Untyped.create_file fs args = Untyped.Rejects ↔ Untyped.rejected args = true.
Proof.
  unfold Untyped.create_file, Untyped.rejected.
  destruct (from_option Untyped.unprintable false (args !! "path")); [done|].
  cbn [orb].
  destruct (Untyped.truthy (args !! "path")) eqn:Hp; [|done].
  destruct (Untyped.truthy (args !! "content")) eqn:Hc; [|done]. cbn.
  destruct (args !! "path") as [[| | |p| |]|]; try done.
  repeat case_match; done.
Qed.
End UntypedArguments.

(** C3, for every argument object: [create_file] called with the number
    [123] as [path] (and a content) throws a [TypeError] at
    [path.startsWith], before the [try] and before the test of [fs]: the
    call returns no object at all. *)
Lemma create_file_number_path :
  Untyped.create_file (Some FS.empty)
    (<["path" := Tools.JNum 123]> {["content" := Tools.JStr "x"]})
  = Untyped.Rejects
  ∧ Untyped.create_file None
      (<["path" := Tools.JNum 123]> {["content" := Tools.JStr "x"]})
    = Untyped.Rejects.
Proof. split; reflexivity. Qed.

(** C3.  The tool set consists of the seven named tools, and whatever the
    arguments (strings, where present, as the parameter schemas declare),
    the Store and the active file are, the object a tool returns has the
    field [success: true] or a field [error] holding a string, and not
    both.  On such arguments [create_file] does return: it is the function
    that throws on the number above. *)
Theorem artifactsTools_response_shape
    (fs : option FS.FileSystemManager) (activeFile : option string) :
  Tools.name <$> Tools.artifactsTools fs activeFile
  = ["create_file"; "list_files"; "delete_file"; "move_file"; "read_file";
     "current_path"; "current_file"]
  ∧ Forall (λ tool, ∀ args : gmap string string,
              Tools.wellShaped (Tools.response (Tools.function tool args)) = true)
      (Tools.artifactsTools fs activeFile)
  ∧ ∀ args : gmap string string,
      Untyped.create_file fs (Tools.JStr <$> args)
      = Untyped.Resolves (Tools.create_file fs args).
Proof.
  split; [reflexivity|]. split; [|apply create_file_typed].
  repeat apply Forall_cons_2; [..|apply Forall_nil_2]; intros args; cbn [Tools.function].
  - unfold Tools.create_file. repeat case_match; reflexivity.
  - unfold Tools.list_files. repeat case_match; reflexivity.
  - unfold Tools.delete_file. repeat case_match; reflexivity.
  - unfold Tools.move_file. repeat case_match; reflexivity.
  - unfold Tools.read_file. repeat case_match; reflexivity.
  - unfold Tools.current_path. repeat case_match; reflexivity.
  - unfold Tools.current_file. repeat case_match; reflexivity.
Qed.

(** C4.  For a non-empty path, [delete_file] answers [File or folder not
    found] exactly when no stored record has that path and no stored record's
    path starts with the path followed by a slash; when there is such a
    record, the tool calls the Store's [deleteFile] on the path, and otherwise
    it calls nothing. *)
Theorem delete_file_not_found_iff
    (m : FS.FileSystemManager) (args : gmap string string) (p : string) :
  FS.consistent m → args !! "path" = Some p → p ≠ "" →
  let o := Tools.delete_file (Some m) args in
  let present :=
    ∃ r, r ∈ FS.listFiles m
         ∧ (FS.path r = p ∨ JS.startsWith (FS.path r) (p +:+ "/") = true) in
  (Tools.response o = Tools.failure ("File or folder not found: " +:+ p) ↔ ¬ present)
  ∧ (present →
     Tools.calls o = [Tools.deleteFileCall p] ∧ Tools.store o = Some (FS.deleteFile m p).2)
  ∧ (¬ present → Tools.calls o = [] ∧ Tools.store o = Some m).
Proof.
  intros Hm Hp Hne o present.
  assert (present ↔ is_Some (FS.getFile m p)
                    ∨ existsb (λ f, JS.startsWith (FS.path f) (p +:+ "/")) (FS.listFiles m)
                      = true) as Hpresent.
  { unfold present. rewrite isFolder_spec. split.
    - intros (r & Hr & [E|E]); [left|right; by exists r].
      exists r. by apply getFile_listFiles.
    - intros [[r Hr]|(r & Hr & E)].
      + apply getFile_listFiles in Hr as [Hr E]; [|done]. exists r. auto.
      + exists r. auto. }
  subst o. unfold Tools.delete_file. rewrite Hp.
  destruct p as [|c p]; [done|].
  set (path := String c p) in *.
  destruct (existsb _ _) eqn:Hfolder.
  - assert present as Hyes by (apply Hpresent; by right).
    rewrite andb_false_r. destruct (FS.deleteFile m path) as [ok m'] eqn:Hdel.
    split; [|split; [|done]].
    + split; [|done]. intros E. exfalso.
      destruct ok; [discriminate E|]. unfold Tools.failure in E.
      apply (f_equal (Tools.get "error")) in E. vm_compute in E. discriminate E.
    + intros _. by destruct ok.
  - destruct (FS.getFile m path) as [r|] eqn:Hget.
    + assert present as Hyes by (apply Hpresent; left; by exists r).
      rewrite bool_decide_eq_true_2 by by exists r. cbn [negb andb].
      destruct (FS.deleteFile m path) as [ok m'] eqn:Hdel.
      split; [|split; [|done]].
      * split; [|done]. intros E. exfalso.
        destruct ok; [discriminate E|]. unfold Tools.failure in E.
        apply (f_equal (Tools.get "error")) in E. vm_compute in E. discriminate E.
      * intros _. by destruct ok.
    + assert (¬ present) as Hno.
      { rewrite Hpresent. intros [[r Hr]|E]; done. }
      rewrite bool_decide_eq_false_2 by (by intros [r Hr]). cbn [negb andb].
      split; [done|]. split; [done|]. done.
Qed.

Lemma delete_file_not_found_iff_witness :
  let m := FS.ofList [("/src/a.ts", "a"); ("/src2/c.ts", "c")] in
  let o := Tools.delete_file (Some m) {["path" := "/src"]} in
  let present :=
    ∃ r, r ∈ FS.listFiles m
         ∧ (FS.path r = "/src" ∨ JS.startsWith (FS.path r) ("/src" +:+ "/") = true) in
  (Tools.response o = Tools.failure ("File or folder not found: " +:+ "/src") ↔ ¬ present)
  ∧ (present →
     Tools.calls o = [Tools.deleteFileCall "/src"]
     ∧ Tools.store o = Some (FS.deleteFile m "/src").2)
  ∧ (¬ present → Tools.calls o = [] ∧ Tools.store o = Some m).
Proof.
  apply (delete_file_not_found_iff
           (FS.ofList [("/src/a.ts", "a"); ("/src2/c.ts", "c")])
           {["path" := "/src"]} "/src").
  - apply consistent_ofList.
  - reflexivity.
  - discriminate.
Defined.

(** C5.  When the [path] argument is missing, empty or does not start with a
    slash, [create_file] answers with an error, makes no Store call (so none
    of [createFile]) and leaves the Store as it was. *)
Theorem create_file_validates_path
    (fs : option FS.FileSystemManager) (args : gmap string string) :
  match args !! "path" with
  | Some p => JS.startsWith p "/" = false
  | None => True
  end →
  let o := Tools.create_file fs args in
  Tools.hasError (Tools.response o) = true
  ∧ Tools.hasSuccess (Tools.response o) = false
  ∧ Tools.calls o = []
  ∧ Tools.store o = fs.
Proof.
  intros Hp. unfold Tools.create_file.
  destruct (args !! "path") as [[|c p]|]; [done| |done].
  destruct (args !! "content") as [[|c' ct]|]; [done| |done].
  by rewrite Hp.
Qed.

Lemma create_file_validates_path_witness :
  let o := Tools.create_file (Some FS.empty)
             (list_to_map [("path", "src/index.js"); ("content", "x")]) in
  Tools.hasError (Tools.response o) = true
  ∧ Tools.hasSuccess (Tools.response o) = false
  ∧ Tools.calls o = []
  ∧ Tools.store o = Some FS.empty.
Proof.
  apply (create_file_validates_path (Some FS.empty)
           (list_to_map [("path", "src/index.js"); ("content", "x")])).
  reflexivity.
Defined.



(** ** Paths and their segments *)

Section Paths.
Import FileBrowser.
Implicit Types (s p : string) (ks segs : list string).

Lemma split_parts_no_sep c s x : x ∈ JS.split c s → JS.contains c x = false.
Proof.
  revert x. induction s as [|y s IH]; simpl; intros x.
  - by intros ->%list_elem_of_singleton.
  - destruct (Ascii.eqb y c) eqn:Hy.
    + intros [->|Hx]%elem_of_cons; [done|]. by apply IH.
    + pose proof (split_not_nil c s). destruct (JS.split c s) as [|h t]; [done|].
      intros [->|Hx]%elem_of_cons.
      * simpl. rewrite Hy. apply IH. by left.
      * apply IH. by right.
Qed.

(** A string is its first part followed by the other parts, each after a
    slash. *)
Lemma split_joinPath s :
  ∃ h t, JS.split "/" s = h :: t ∧ s = h +:+ joinPath t.
Proof.
  induction s as [|y s (h & t & Hs & E)]; simpl.
  - by exists "", [].
  - rewrite Hs. destruct (Ascii.eqb_spec y "/") as [->|Hy].
    + exists "", (h :: t). split; [done|]. simpl. rewrite sapp_nil_l. by rewrite E at 1.
    + exists (String y h), t. split; [done|]. rewrite sapp_cons. by rewrite E at 1.
Qed.

Lemma joinPath_app ks segs : joinPath (ks ++ segs) = joinPath ks +:+ joinPath segs.
Proof.
  induction ks as [|k ks IH]; simpl; [done|].
  by rewrite IH, !sapp_assoc.
Qed.

(** The way [currentPath] grows in the loop. *)
Lemma joinPath_snoc ks s : joinPath (ks ++ [s]) = joinPath ks +:+ "/" +:+ s.
Proof. rewrite joinPath_app. simpl. by rewrite sapp_nil_r. Qed.

Lemma joinPath_head segs : joinPath segs = "" ∨ ∃ r, joinPath segs = String "/" r.
Proof. destruct segs; [by left|right]. by eexists. Qed.

Lemma joinPath_nil segs : joinPath segs = "" → segs = [].
Proof. by destruct segs. Qed.

Lemma app_segment_inj s1 s2 r1 r2 :
  JS.contains "/" s1 = false → JS.contains "/" s2 = false →
  (r1 = "" ∨ ∃ r, r1 = String "/" r) → (r2 = "" ∨ ∃ r, r2 = String "/" r) →
  s1 +:+ r1 = s2 +:+ r2 → s1 = s2 ∧ r1 = r2.
Proof.
  revert s2. induction s1 as [|x s1 IH]; intros [|y s2] H1 H2 Hr1 Hr2 E.
  - done.
  - rewrite sapp_nil_l, sapp_cons in E. simpl in H2.
    apply orb_false_iff in H2 as [Hy _].
    destruct Hr1 as [->|[r ->]]; [done|]. by simplify_eq.
  - rewrite sapp_nil_l, sapp_cons in E. simpl in H1.
    apply orb_false_iff in H1 as [Hx _].
    destruct Hr2 as [->|[r ->]]; [done|]. by simplify_eq.
  - rewrite !sapp_cons in E. simpl in H1, H2.
    apply orb_false_iff in H1 as [_ H1]. apply orb_false_iff in H2 as [_ H2].
    simplify_eq. destruct (IH s2 H1 H2 Hr1 Hr2) as [-> ->]; done.
Qed.

(** Lists of path segments are determined by the path they spell. *)
Lemma joinPath_inj ks segs :
  Forall validSegment ks → Forall validSegment segs →
  joinPath ks = joinPath segs → ks = segs.
Proof.
  intros Hks. revert segs. induction Hks as [|k ks [_ Hk] _ IH];
    intros segs Hsegs E.
  - symmetry. by apply joinPath_nil.
  - destruct Hsegs as [|s segs [_ Hs] Hsegs]; [done|].
    simpl in E. change ("/" +:+ ?x) with (String "/" x) in E. simplify_eq.
    destruct (app_segment_inj k s (joinPath ks) (joinPath segs)) as [-> E'];
      auto using joinPath_head.
    f_equal. by apply IH.
Qed.

Lemma filter_validSegment segs :
  Forall validSegment segs →
  List.filter (λ part, 0 <? String.length part) segs = segs.
Proof.
  induction 1 as [|x l [Hx _] _ IH]; [done|].
  destruct x; [done|]. simpl. by f_equal.
Qed.

(** A well-formed path spells its [pathParts], which are segments. *)
Lemma wellFormedPath_parts p :
  FS.wellFormedPath p = true →
  pathParts p ≠ [] ∧ Forall validSegment (pathParts p) ∧ p = joinPath (pathParts p).
Proof.
  unfold FS.wellFormedPath, pathParts. intros Hwf.
  destruct (split_joinPath p) as (h & t & Hs & E).
  pose proof (split_parts_no_sep "/" p) as Hno. rewrite Hs in Hwf, Hno |- *.
  destruct h; [|done]. destruct t as [|seg segs]; [done|].
  assert (Forall validSegment (seg :: segs)) as Hvalid.
  { apply Forall_forall. intros x Hx. split.
    - pose proof (proj1 (forallb_forall _ _) Hwf x) as Hx'.
      rewrite <- list_elem_of_In in Hx'. specialize (Hx' Hx). by intros ->.
    - apply Hno. by right. }
  assert (List.filter (λ part, 0 <? String.length part) ("" :: seg :: segs)
          = seg :: segs) as ->.
  { change (List.filter _ ("" :: ?l)) with (List.filter (λ part, 0 <? String.length part) l).
    by apply filter_validSegment. }
  done.
Qed.
End Paths.

(** ** Sorting *)

Section SortFacts.
Import FileBrowser.
Context {A : Type} (compareFn : A → A → comparison).

Local Abbreviation before := (FileBrowser.before compareFn).

Lemma insertSorted_Permutation x l : insertSorted compareFn x l ≡ₚ x :: l.
Proof.
  induction l as [|y l IH]; simpl; [done|].
  destruct (compareFn x y); [done..|].
  rewrite IH. apply Permutation_swap.
Qed.

Lemma sort_Permutation l : sort compareFn l ≡ₚ l.
Proof.
  induction l as [|x l IH]; simpl; [done|].
  by rewrite insertSorted_Permutation, IH.
Qed.

Lemma elem_of_sort l x : x ∈ sort compareFn l ↔ x ∈ l.
Proof. by rewrite sort_Permutation. Qed.

Lemma NoDup_sort l : NoDup (sort compareFn l) ↔ NoDup l.
Proof. by rewrite sort_Permutation. Qed.

(** A consistent comparator: connected and transitive. *)
Hypothesis compare_total : ∀ a b, compareFn a b = Gt → compareFn b a ≠ Gt.
Hypothesis compare_trans : ∀ a b c, before a b → before b c → before a c.

Lemma insertSorted_StronglySorted x l :
  StronglySorted before l → StronglySorted before (insertSorted compareFn x l).
Proof.
  induction 1 as [|y l Hl IH Hy]; simpl.
  - repeat constructor.
  - destruct (compareFn x y) eqn:E.
    + constructor; [by constructor|]. constructor; [unfold FileBrowser.before; congruence|].
      eapply Forall_impl; [exact Hy|]. intros z Hz.
      apply (compare_trans x y z); [unfold FileBrowser.before; congruence|done].
    + constructor; [by constructor|]. constructor; [unfold FileBrowser.before; congruence|].
      eapply Forall_impl; [exact Hy|]. intros z Hz.
      apply (compare_trans x y z); [unfold FileBrowser.before; congruence|done].
    + constructor; [done|].
      rewrite insertSorted_Permutation. constructor; [|done].
      by apply compare_total.
Qed.

Lemma sort_StronglySorted l : StronglySorted before (sort compareFn l).
Proof.
  induction l as [|x l IH]; simpl; [constructor|].
  by apply insertSorted_StronglySorted.
Qed.
End SortFacts.

Section NodeOrder.
Import FileBrowser.
Variable localeCompare : string → string → comparison.
Hypothesis locale_total : ∀ a b, localeCompare a b = Gt → localeCompare b a ≠ Gt.
Hypothesis locale_trans :
  ∀ a b c, localeCompare a b ≠ Gt → localeCompare b c ≠ Gt → localeCompare a c ≠ Gt.

(** The comparator of the two [sort] calls decides the sibling order. *)
Lemma compareNodes_siblingOrder a b :
  compareNodes localeCompare a b ≠ Gt ↔ siblingOrder localeCompare a b.
Proof.
  unfold compareNodes, siblingOrder.
  destruct (type a), (type b);
    (split; [intros H; first [by destruct H | by left | by right]
            | intros [[? ?]|[? ?]]; done]).
Qed.

Lemma compareNodes_total a b :
  compareNodes localeCompare a b = Gt → compareNodes localeCompare b a ≠ Gt.
Proof.
  unfold compareNodes. destruct (type a), (type b); auto; done.
Qed.

Lemma compareNodes_trans a b c :
  compareNodes localeCompare a b ≠ Gt → compareNodes localeCompare b c ≠ Gt →
  compareNodes localeCompare a c ≠ Gt.
Proof.
  unfold compareNodes. destruct (type a), (type b), (type c); eauto; done.
Qed.

Lemma sort_siblingOrder l :
  StronglySorted (siblingOrder localeCompare) (sort (compareNodes localeCompare) l).
Proof.
  pose proof (sort_StronglySorted (compareNodes localeCompare)
                compareNodes_total compareNodes_trans l) as Hsorted.
  induction Hsorted as [|x k _ IH Hx]; constructor; [done|].
  eapply Forall_impl; [exact Hx|]. intros y. apply compareNodes_siblingOrder.
Qed.
End NodeOrder.

(** ** The heap of [buildFileTree] *)

Section HeapFacts.
Import FileBrowser.
Implicit Types (h : Heap) (r : LevelRef) (l : list Node) (ks : list string).

Lemma readLevel_writeLevel h r l : readLevel (writeLevel h r l) r = l.
Proof. destruct r; simpl; [done|]. by rewrite lookup_insert_eq. Qed.

Lemma readLevel_writeLevel_ne h r r' l :
  r ≠ r' → readLevel (writeLevel h r l) r' = readLevel h r'.
Proof.
  intros Hne. destruct r as [|p], r' as [|p']; simpl; try done.
  rewrite lookup_insert_ne; [done|congruence].
Qed.

(** Writing an array that exists does not change which folders exist. *)
Lemma folderMap_writeLevel h r l k :
  (∀ p, r = childrenOf p → is_Some (folderMap h !! p)) →
  is_Some (folderMap (writeLevel h r l) !! k) ↔ is_Some (folderMap h !! k).
Proof.
  intros Hr. destruct r as [|p]; simpl; [done|].
  destruct (decide (p = k)) as [->|Hne].
  - rewrite lookup_insert_eq. split; [intros _; by apply Hr|by eexists].
  - by rewrite lookup_insert_ne.
Qed.

Lemma levelRef_snoc ks s : levelRef (ks ++ [s]) = childrenOf (joinPath (ks ++ [s])).
Proof. by destruct ks. Qed.

Lemma levelRef_inj ks ks' :
  Forall validSegment ks → Forall validSegment ks' →
  levelRef ks = levelRef ks' → ks = ks'.
Proof.
  intros Hks Hks' E. destruct ks as [|k ks], ks' as [|k' ks']; try done.
  apply joinPath_inj; [done..|]. unfold levelRef in E. congruence.
Qed.

Lemma fileNode_inj s s' f f' : fileNode s f = fileNode s' f' → s = s' ∧ f = f'.
Proof. by intros [= -> _ ->]. Qed.

Lemma folderNode_inj s s' p p' : folderNode s p = folderNode s' p' → s = s' ∧ p = p'.
Proof. by intros [= -> ->]. Qed.
End HeapFacts.

(** ** The loop of [buildFileTree] keeps the heap in shape *)

Section Loop.
Import FileBrowser.
Variable localeCompare : string → string → comparison.
Hypothesis locale_total : ∀ a b, localeCompare a b = Gt → localeCompare b a ≠ Gt.
Hypothesis locale_trans :
  ∀ a b c, localeCompare a b ≠ Gt → localeCompare b c ≠ Gt → localeCompare a c ≠ Gt.

Implicit Types (h : Heap) (ks : list string) (n : Node) (F : list File)
  (Dirs : list string → Prop) (E : list string → Node → Prop).

Lemma Shape_iff Dirs Dirs' E E' h :
  (∀ ks, Dirs ks ↔ Dirs' ks) →
  (∀ ks n, ks = [] ∨ Dirs ks → (E ks n ↔ E' ks n)) →
  Shape localeCompare Dirs E h → Shape localeCompare Dirs' E' h.
Proof.
  intros HD HE [Hk Hl Hn Hs]. split; [| |done..].
  - intros k. rewrite Hk. by setoid_rewrite HD.
  - intros ks Hks n. rewrite <- HD in Hks. rewrite Hl by done. by apply HE.
Qed.

(** [folderMap.set(currentPath, folderNode)] for a folder that is new: its
    array is empty, the others are as before. *)
Lemma Shape_alloc Dirs E h ks1 :
  Shape localeCompare Dirs E h →
  (∀ ks, Dirs ks → Forall validSegment ks) →
  ks1 ≠ [] → Forall validSegment ks1 → ¬ Dirs ks1 →
  Shape localeCompare (λ x, Dirs x ∨ x = ks1) (λ ks n, ks ≠ ks1 ∧ E ks n)
    {| tree := tree h; folderMap := <[joinPath ks1 := []]> (folderMap h) |}.
Proof.
  intros [Hk Hl Hn Hs] Hvalid Hne Hks1 Hnew.
  assert (∀ ks, ks = [] ∨ Dirs ks → ks ≠ ks1 →
          readLevel {| tree := tree h; folderMap := <[joinPath ks1 := []]> (folderMap h) |}
            (levelRef ks) = readLevel h (levelRef ks)) as Hother.
  { intros ks Hks Hneq. destruct ks as [|k ks]; [done|].
    unfold levelRef, readLevel. cbn [folderMap]. rewrite lookup_insert_ne; [done|].
    intros E'%joinPath_inj; [done|done|]. destruct Hks; [done|]. by apply Hvalid. }
  split.
  - intros k. simpl. destruct (decide (joinPath ks1 = k)) as [<-|Hneq].
    + rewrite lookup_insert_eq. split; [|by eexists]. intros _. exists ks1. auto.
    + rewrite lookup_insert_ne by done. rewrite Hk. split.
      * intros (ks & -> & Hks). exists ks. auto.
      * intros (ks & -> & [Hks| ->]); [by exists ks|done].
  - intros ks Hks n. destruct (decide (ks = ks1)) as [->|Hneq].
    + destruct ks1 as [|k ks1]; [done|]. simpl. rewrite lookup_insert_eq. simpl.
      split; [by intros ?%elem_of_nil|by intros [? _]].
    + rewrite Hother; [|by destruct Hks as [|[|]]; auto|done].
      rewrite Hl by (destruct Hks as [|[|]]; auto; done). tauto.
  - intros [|p]; simpl; [apply (Hn rootLevel)|].
    destruct (decide (joinPath ks1 = p)) as [<-|Hneq].
    + rewrite lookup_insert_eq. constructor.
    + rewrite lookup_insert_ne by done. apply (Hn (childrenOf p)).
  - intros [|p]; simpl; [apply (Hs rootLevel)|].
    destruct (decide (joinPath ks1 = p)) as [<-|Hneq].
    + rewrite lookup_insert_eq. constructor.
    + rewrite lookup_insert_ne by done. apply (Hs (childrenOf p)).
Qed.

(** [currentLevel.push(node); currentLevel.sort(...)] for a node the array
    does not hold yet. *)
Lemma Shape_push Dirs E h ks0 n :
  Shape localeCompare Dirs E h →
  (∀ ks, Dirs ks → Forall validSegment ks) →
  ks0 = [] ∨ Dirs ks0 → ¬ E ks0 n →
  Shape localeCompare Dirs (λ ks x, E ks x ∨ (ks = ks0 ∧ x = n))
    (pushSort localeCompare (levelRef ks0) n h).
Proof.
  intros [Hk Hl Hn Hs] Hvalid Hks0 Hfresh.
  assert (∀ ks, ks = [] ∨ Dirs ks → Forall validSegment ks) as Hvalid'.
  { intros ks [->|Hks]; [constructor|by apply Hvalid]. }
  unfold pushSort. split.
  - intros k. rewrite folderMap_writeLevel; [apply Hk|].
    intros p Hp. apply Hk. destruct ks0 as [|k0 ks0]; [done|].
    exists (k0 :: ks0). destruct Hks0; [done|]. split; [|done]. unfold levelRef in Hp. congruence.
  - intros ks Hks x. destruct (decide (ks = ks0)) as [->|Hneq].
    + rewrite readLevel_writeLevel, elem_of_sort, elem_of_app, list_elem_of_singleton.
      rewrite Hl by done. tauto.
    + rewrite readLevel_writeLevel_ne.
      * rewrite Hl by done. tauto.
      * intros E'%levelRef_inj; auto.
  - intros r. destruct (decide (levelRef ks0 = r)) as [<-|Hneq].
    + rewrite readLevel_writeLevel, NoDup_sort, NoDup_app.
      split; [apply Hn|]. split; [|apply NoDup_singleton].
      intros x Hx ->%list_elem_of_singleton. apply Hfresh. by apply Hl.
    + rewrite readLevel_writeLevel_ne by done. apply Hn.
  - intros r. destruct (decide (levelRef ks0 = r)) as [<-|Hneq].
    + rewrite readLevel_writeLevel. by apply sort_siblingOrder.
    + rewrite readLevel_writeLevel_ne by done. apply Hs.
Qed.

Lemma expected_iff Dirs Dirs' F ks n :
  (∀ x, Dirs x ↔ Dirs' x) → expected Dirs F ks n ↔ expected Dirs' F ks n.
Proof. intros HD. unfold expected. by setoid_rewrite HD. Qed.

(** One round of the folder loop: the folder [s] below [ks] is found in
    [folderMap], or created and pushed. *)
Lemma folder_step Dirs F h ks s :
  Inv localeCompare Dirs F h → DirsOK Dirs F →
  ks = [] ∨ Dirs ks → validSegment s →
  let currentPath := joinPath ks +:+ "/" +:+ s in
  let h1 :=
    match folderMap h !! currentPath with
    | Some _ => h
    | None =>
        pushSort localeCompare (levelRef ks)
          {| name := s; nodePath := currentPath; type := folder; nodeFile := None |}
          {| tree := tree h; folderMap := <[currentPath := []]> (folderMap h) |}
    end in
  Inv localeCompare (λ x, Dirs x ∨ x = ks ++ [s]) F h1
  ∧ DirsOK (λ x, Dirs x ∨ x = ks ++ [s]) F.
Proof.
  intros HI [Hvalid Hclosed Hfiles] Hks Hs currentPath.
  assert (currentPath = joinPath (ks ++ [s])) as Hcp by (by rewrite joinPath_snoc).
  assert (Forall validSegment (ks ++ [s])) as Hvalid1.
  { apply Forall_app. split; [|by apply Forall_singleton].
    destruct Hks as [->|Hks]; [constructor|by apply Hvalid]. }
  assert (ks ++ [s] ≠ []) as Hne1.
  { intros E%(f_equal length). rewrite length_app in E. simpl in E. lia. }
  assert (DirsOK (λ x, Dirs x ∨ x = ks ++ [s]) F) as HOK.
  { split.
    - intros x [Hx| ->]; [by apply Hvalid|done].
    - intros x s' [Hx|[-> _]%app_inj_tail].
      + destruct (Hclosed x s' Hx); auto.
      + destruct Hks; auto.
    - intros f x rest Hf Hparts Hx Hrest. left. by eapply Hfiles. }
  split; [|done]. simpl.
  destruct (folderMap h !! currentPath) as [l|] eqn:Hlook.
  - (* the folder exists *)
    assert (Dirs (ks ++ [s])) as Hold.
    { destruct (proj1 (shape_keys _ _ _ _ HI currentPath)) as (ks2 & E2 & Hks2);
        [by eexists|].
      rewrite Hcp in E2. apply joinPath_inj in E2; [by subst|done|by apply Hvalid]. }
    assert (∀ x, Dirs x ↔ Dirs x ∨ x = ks ++ [s]) as HD.
    { intros x. split; [by left|by intros [?| ->]]. }
    eapply Shape_iff; [exact HD| |exact HI].
    intros ks' n _. by apply expected_iff.
  - (* the folder is new *)
    assert (¬ Dirs (ks ++ [s])) as Hnew.
    { intros Hd. assert (is_Some (folderMap h !! currentPath)) as [? ?]; [|congruence].
      apply (shape_keys _ _ _ _ HI). by exists (ks ++ [s]). }
    pose proof (Shape_alloc Dirs _ h (ks ++ [s]) HI
                  (λ x Hx, proj2 (Hvalid x Hx))
                  Hne1 Hvalid1 Hnew) as Ha.
    rewrite <- Hcp in Ha.
    eapply Shape_iff; cycle 2.
    { eapply (Shape_push _ _ _ ks); [exact Ha|..].
      - intros x [Hx| ->]; [by apply Hvalid|done].
      - destruct Hks; auto.
      - intros [_ [(s' & E & Hd)|(f & s' & _ & _ & E)]]; [|done].
        apply folderNode_inj in E as [<- _]. done. }
    + intros x. reflexivity.
    + intros ks' n Hks'. unfold expected.
      destruct (decide (ks' = ks ++ [s])) as [->|Hneq].
      * (* nothing lies below the new folder *)
        split; [intros [[[] _]|[E _]]; [done|]|].
        { apply (f_equal length) in E. rewrite length_app in E. simpl in E. lia. }
        intros [(s' & _ & [Hd|E])|(f & s' & Hf & Hparts & _)]; exfalso.
        -- destruct (Hclosed _ _ Hd) as [E|Hd']; done.
        -- apply app_inj_tail in E as [E _].
           apply (f_equal length) in E. rewrite length_app in E. simpl in E. lia.
        -- apply Hnew. by eapply (Hfiles f (ks ++ [s]) [s']).
      * split.
        -- intros [[_ [(s' & -> & Hd)|(f & s' & Hf & Hp & ->)]]|[-> ->]].
           ++ left. exists s'. auto.
           ++ right. by exists f, s'.
           ++ left. exists s. rewrite <- Hcp. auto.
        -- intros [(s' & -> & [Hd|E])|(f & s' & Hf & Hp & ->)].
           ++ left. split; [done|]. left. by exists s'.
           ++ apply app_inj_tail in E as [-> ->]. right. by rewrite <- Hcp.
           ++ left. split; [done|]. right. by exists f, s'.
Qed.

(** The end of the loop body: the file node is pushed below [ks]. *)
Lemma file_step Dirs F h ks s f :
  Inv localeCompare Dirs F h → DirsOK Dirs F →
  ks = [] ∨ Dirs ks → f ∉ F → pathParts (path f) = ks ++ [s] →
  Inv localeCompare Dirs (f :: F)
    (pushSort localeCompare (levelRef ks)
       {| name := s; nodePath := path f; type := file; nodeFile := Some f |} h).
Proof.
  intros HI [Hvalid Hclosed Hfiles] Hks Hf Hparts.
  eapply Shape_iff; cycle 2.
  { eapply (Shape_push _ _ _ ks); [exact HI|..].
    - intros x Hx. by apply Hvalid.
    - done.
    - intros [(s' & E & _)|(f' & s' & Hf' & _ & E)]; [done|].
      apply fileNode_inj in E as [_ ->]. done. }
  - intros x. reflexivity.
  - intros ks' n Hks'. unfold expected. split.
    + intros [[(s' & -> & Hd)|(f' & s' & Hf' & Hp & ->)]|[-> ->]].
      * left. by exists s'.
      * right. exists f', s'. split; [by right|done].
      * right. exists f, s. split; [by left|done].
    + intros [(s' & -> & Hd)|(f' & s' & [->|Hf']%elem_of_cons & Hp & ->)].
      * left. left. by exists s'.
      * rewrite Hparts in Hp. apply app_inj_tail in Hp as [-> ->]. by right.
      * left. right. by exists f', s'.
Qed.

Lemma newDirs_single ks s x : ¬ newDirs ks [s] x.
Proof.
  intros (pre & post & E & Hpre & Hpost & _).
  destruct pre as [|a [|b pre]]; by simplify_eq/=.
Qed.

Lemma newDirs_cons ks s rest x :
  rest ≠ [] →
  newDirs ks (s :: rest) x ↔ x = ks ++ [s] ∨ newDirs (ks ++ [s]) rest x.
Proof.
  intros Hrest. split.
  - intros (pre & post & E & Hpre & Hpost & ->).
    destruct pre as [|a pre]; [done|]. simplify_eq/=.
    destruct pre as [|b pre]; [by left|right].
    exists (b :: pre), post. by rewrite <- app_assoc.
  - intros [->|(pre & post & -> & Hpre & Hpost & ->)].
    + by exists [s], rest.
    + exists (s :: pre), post. by rewrite <- app_assoc.
Qed.

(** The loop body for one file, from any point of its way down. *)
Lemma addFile_Inv f F rest : ∀ ks Dirs h,
  rest ≠ [] → Forall validSegment rest → pathParts (path f) = ks ++ rest →
  f ∉ F → Inv localeCompare Dirs F h → DirsOK Dirs F → ks = [] ∨ Dirs ks →
  ∃ h', addFile localeCompare f rest (joinPath ks) (levelRef ks) h = Some h'
        ∧ Inv localeCompare (λ x, Dirs x ∨ newDirs ks rest x) (f :: F) h'.
Proof.
  induction rest as [|s rest IH]; intros ks Dirs h Hne Hvalid Hparts Hf HI HOK Hks;
    [done|].
  destruct rest as [|s2 rest].
  - (* the file name *)
    eexists. split; [reflexivity|].
    eapply Shape_iff; [| |by apply (file_step Dirs F h ks s f)].
    + intros x. pose proof (newDirs_single ks s x). tauto.
    + intros ks' n _. apply expected_iff.
      intros x. pose proof (newDirs_single ks s x). tauto.
  - (* a folder name *)
    apply Forall_cons in Hvalid as [Hs Hvalid].
    destruct (folder_step Dirs F h ks s HI HOK Hks Hs) as [HI1 HOK1].
    destruct (IH (ks ++ [s]) (λ x, Dirs x ∨ x = ks ++ [s]) _
                ltac:(done) Hvalid ltac:(by rewrite <- app_assoc) Hf HI1 HOK1
                ltac:(by right; right)) as (h' & Hh' & HI').
    exists h'. split.
    + rewrite <- Hh'. rewrite levelRef_snoc, joinPath_snoc. reflexivity.
    + assert (∀ x, (Dirs x ∨ x = ks ++ [s]) ∨ newDirs (ks ++ [s]) (s2 :: rest) x
                   ↔ Dirs x ∨ newDirs ks (s :: s2 :: rest) x) as HD.
      { intros x. rewrite (newDirs_cons ks s (s2 :: rest)) by done. tauto. }
      eapply Shape_iff; [exact HD| |exact HI'].
      intros ks' n _. by apply expected_iff.
Qed.

Lemma isDir_DirsOK F : Forall wellFormedFile F → DirsOK (isDir F) F.
Proof.
  intros HF. split.
  - intros ks [Hne (f & rest & Hf & Hrest & Hparts)]. split; [done|].
    rewrite Forall_forall in HF.
    destruct (wellFormedPath_parts (path f) (HF f Hf)) as (_ & Hvalid & _).
    rewrite Hparts in Hvalid. by apply Forall_app in Hvalid as [? _].
  - intros ks s [_ (f & rest & Hf & Hrest & Hparts)].
    destruct ks as [|k ks]; [by left|right]. split; [done|].
    exists f, (s :: rest). by rewrite <- app_assoc in Hparts.
  - intros f ks rest Hf Hparts Hks Hrest. split; [done|]. by exists f, rest.
Qed.

Lemma isDir_cons f F x :
  isDir F x ∨ newDirs [] (pathParts (path f)) x ↔ isDir (f :: F) x.
Proof.
  unfold isDir, newDirs. split.
  - intros [[Hx (f' & rest & Hf' & Hrest & Hparts)]
           |(pre & post & Hparts & Hpre & Hpost & ->)].
    + split; [done|]. exists f', rest. split; [by right|done].
    + split; [done|]. exists f, post. split; [by left|done].
  - intros [Hx (f' & rest & [->|Hf']%elem_of_cons & Hrest & Hparts)].
    + right. by exists x, rest.
    + left. split; [done|]. by exists f', rest.
Qed.

Lemma isDir_ext F F' x : (∀ f, f ∈ F ↔ f ∈ F') → isDir F x ↔ isDir F' x.
Proof. intros HF. unfold isDir. by setoid_rewrite HF. Qed.

(** The invariant speaks of the files as a set. *)
Lemma Inv_ext F F' h :
  (∀ f, f ∈ F ↔ f ∈ F') →
  Inv localeCompare (isDir F) F h → Inv localeCompare (isDir F') F' h.
Proof.
  intros HF. apply Shape_iff.
  - intros ks. by apply isDir_ext.
  - intros ks n _. unfold expected. setoid_rewrite HF.
    by setoid_rewrite (λ x, isDir_ext F F' x HF).
Qed.

Lemma Inv_empty : Inv localeCompare (isDir []) [] {| tree := []; folderMap := ∅ |}.
Proof.
  split.
  - intros k. simpl. rewrite lookup_empty. split; [by intros [? ?]|].
    intros (ks & _ & _ & f & rest & Hf%elem_of_nil & _). done.
  - intros ks _ n. assert (readLevel {| tree := []; folderMap := ∅ |} (levelRef ks) = []) as ->.
    { destruct ks; [done|]. unfold levelRef, readLevel. simpl folderMap.
      by rewrite lookup_empty. }
    split; [by intros ?%elem_of_nil|].
    intros [(s & _ & _ & f & rest & Hf%elem_of_nil & _)|(f & s & Hf%elem_of_nil & _)]; done.
  - intros [|p]; simpl; [constructor|]. rewrite lookup_empty. constructor.
  - intros [|p]; simpl; [constructor|]. rewrite lookup_empty. constructor.
Qed.

(** The loop over the files. *)
Lemma addFiles_Inv fs : ∀ F h,
  Forall wellFormedFile fs → Forall wellFormedFile F → NoDup (fs ++ F) →
  Inv localeCompare (isDir F) F h →
  ∃ h', addFiles localeCompare fs h = Some h'
        ∧ Inv localeCompare (isDir (fs ++ F)) (fs ++ F) h'.
Proof.
  induction fs as [|f fs IH]; intros F h Hfs HF Hnd HI; [by exists h|].
  apply Forall_cons in Hfs as [Hf Hfs].
  destruct (wellFormedPath_parts (path f) Hf) as (Hne & Hvalid & _).
  assert ((f ∉ F) ∧ NoDup (fs ++ f :: F)) as [HfF Hnd'].
  { rewrite <- Permutation_middle. apply NoDup_cons in Hnd as [Hnot Hnd].
    split; [|by apply NoDup_cons]. intros ?. apply Hnot, elem_of_app. by right. }
  destruct (addFile_Inv f F (pathParts (path f)) [] (isDir F) h)
    as (h1 & Hh1 & HI1); [done..|by apply isDir_DirsOK|by left|].
  assert (Inv localeCompare (isDir (f :: F)) (f :: F) h1) as HI1'.
  { eapply Shape_iff; [|intros ks n _; apply expected_iff|exact HI1];
      intros x; apply isDir_cons. }
  destruct (IH (f :: F) h1 Hfs ltac:(by constructor) Hnd' HI1') as (h' & Hh' & HI').
  exists h'. simpl. simpl in Hh1. rewrite Hh1. split; [done|].
  eapply Inv_ext; [|exact HI']. intros x.
  rewrite !elem_of_app, !elem_of_cons, !elem_of_app. tauto.
Qed.
End Loop.

(** ** The forest read off the heap *)

Section ListFacts.
Context {A B : Type}.
Implicit Types (l : list A) (f : A → list B).

Lemma elem_of_flat_map f l y : y ∈ flat_map f l ↔ ∃ x, x ∈ l ∧ y ∈ f x.
Proof.
  rewrite list_elem_of_In, in_flat_map.
  by setoid_rewrite list_elem_of_In.
Qed.

Lemma NoDup_flat_map f l :
  (∀ x1 x2 y, x1 ∈ l → x2 ∈ l → y ∈ f x1 → y ∈ f x2 → x1 = x2) →
  (∀ x, x ∈ l → NoDup (f x)) → NoDup l → NoDup (flat_map f l).
Proof.
  intros Hdisj Hf Hl. induction Hl as [|x l Hx Hl IH]; simpl; [constructor|].
  apply NoDup_app. split; [apply Hf; by left|]. split.
  - intros y Hy (x' & Hx' & Hy')%elem_of_flat_map.
    assert (x = x') as <-; [|done].
    eapply Hdisj; [by left|by right|done..].
  - apply IH.
    + intros x1 x2 y H1 H2. apply Hdisj; by right.
    + intros x' Hx'. apply Hf. by right.
Qed.

(** In a list without repetition, a property that singles out one element
    is met exactly once. *)
Lemma filter_length_one (P : A → Prop) `{!∀ x, Decision (P x)} (l : list A) x :
  NoDup l → x ∈ l → P x → (∀ y, y ∈ l → P y → y = x) →
  length (List.filter (λ y, bool_decide (P y)) l) = 1.
Proof.
  intros Hl Hx HP Huniq.
  assert (∀ l', (∀ y, y ∈ l' → P y → y = x) → x ∉ l' →
                List.filter (λ y, bool_decide (P y)) l' = []) as Hnone.
  { induction l' as [|z l' IH]; intros Hu Hn; simpl; [done|].
    rewrite bool_decide_eq_false_2.
    - apply IH; [intros y Hy; apply Hu; by right|]. intros ?. apply Hn. by right.
    - intros Hz. apply Hn. assert (z = x) as -> by (apply Hu; [by left|done]).
      by left. }
  induction Hl as [|z l Hz Hl IH]; [by apply elem_of_nil in Hx|].
  simpl. apply elem_of_cons in Hx as [<-|Hx].
  - rewrite bool_decide_eq_true_2 by done. simpl. f_equal.
    rewrite Hnone; [done| |done]. intros y Hy. apply Huniq. by right.
  - rewrite bool_decide_eq_false_2.
    + apply IH; [done|]. intros y Hy. apply Huniq. by right.
    + intros HPz. apply Hz. assert (z = x) as -> by (apply Huniq; [by left|done]).
      done.
Qed.

Lemma NoDup_fmap_eq (g : A → B) l x y :
  NoDup (g <$> l) → x ∈ l → y ∈ l → g x = g y → x = y.
Proof.
  induction l as [|z l IH]; simpl; [by intros _ ?%elem_of_nil|].
  intros [Hz Hl]%NoDup_cons [->|Hx]%elem_of_cons [->|Hy]%elem_of_cons E; auto.
  - exfalso. apply Hz. rewrite E. by apply list_elem_of_fmap_2.
  - exfalso. apply Hz. rewrite <- E. by apply list_elem_of_fmap_2.
Qed.
End ListFacts.

Section Forest.
Import FileBrowser.
Variable localeCompare : string → string → comparison.
Variable Dirs : list string → Prop.
Variable F : list File.
Variable h : Heap.
Hypothesis HF : Forall wellFormedFile F.
Hypothesis HOK : DirsOK Dirs F.
Hypothesis HI : Inv localeCompare Dirs F h.

Implicit Types (ks : list string) (n : Node) (d : nat).

Lemma forest_cons d n (l : list Node) :
  forest d h (n :: l)
  = FNode n (match type n with
             | file => None
             | folder =>
                 Some (match d with
                       | 0 => []
                       | S d' => forest d' h (readLevel h (childrenOf (nodePath n)))
                       end)
             end) :: forest d h l.
Proof. destruct d; simpl; by destruct (type n). Qed.

Lemma allNodes_cons (t : FileNode) (f : list FileNode) :
  allNodes (t :: f) = nodes t ++ allNodes f.
Proof. reflexivity. Qed.

Lemma allNodes_forest_0 (l : list Node) : allNodes (forest 0 h l) = l.
Proof.
  induction l as [|n l IH]; [done|].
  rewrite forest_cons, allNodes_cons, IH. by destruct (type n).
Qed.

Lemma allNodes_forest_S d (l : list Node) :
  allNodes (forest (S d) h l) = flat_map (λ c, c :: below d h c) l.
Proof.
  induction l as [|n l IH]; [done|].
  rewrite forest_cons, allNodes_cons, IH. cbn [flat_map]. unfold below.
  by destruct (type n).
Qed.

(** A node of the array below [ks] spells [ks] and its own name. *)
Lemma expected_path ks n :
  ks = [] ∨ Dirs ks → expected Dirs F ks n →
  nodePath n = joinPath (ks ++ [name n]) ∧ Forall validSegment (ks ++ [name n]).
Proof.
  intros Hks [(s & -> & Hd)|(f & s & Hf & Hparts & ->)]; simpl.
  - split; [done|]. by apply (dirs_valid _ _ HOK).
  - rewrite Forall_forall in HF.
    destruct (wellFormedPath_parts (path f) (HF f Hf)) as (_ & Hvalid & E).
    by rewrite Hparts in Hvalid, E.
Qed.

(** A node lies in one array only. *)
Lemma node_level ks ks' n :
  ks = [] ∨ Dirs ks → ks' = [] ∨ Dirs ks' →
  n ∈ readLevel h (levelRef ks) → n ∈ readLevel h (levelRef ks') → ks = ks'.
Proof.
  intros Hks Hks' Hn Hn'.
  apply (shape_level _ _ _ _ HI ks Hks), (expected_path ks n Hks) in Hn as [E Hv].
  apply (shape_level _ _ _ _ HI ks' Hks'), (expected_path ks' n Hks') in Hn' as [E' Hv'].
  rewrite E in E'. apply joinPath_inj in E'; [|done..].
  by apply app_inj_tail in E' as [? _].
Qed.

Lemma dirs_prefix ks rest : ks ≠ [] → Dirs (ks ++ rest) → Dirs ks.
Proof.
  intros Hks. induction rest as [|s rest IH] using rev_ind.
  - by rewrite app_nil_r.
  - rewrite app_assoc. intros [E|Hd]%(dirs_closed _ _ HOK); [|by apply IH].
    by apply app_nil in E as [? _].
Qed.

(** The folder nodes of the array below [ks]. *)
Lemma folder_in_level ks c :
  ks = [] ∨ Dirs ks → c ∈ readLevel h (levelRef ks) → type c = folder →
  c = folderNode (name c) (joinPath (ks ++ [name c])) ∧ Dirs (ks ++ [name c]).
Proof.
  intros Hks Hc Ht. apply (shape_level _ _ _ _ HI ks Hks) in Hc.
  destruct Hc as [(s & -> & Hd)|(f & s & _ & _ & ->)]; done.
Qed.

(** With enough depth, [forest] reads every array below [ks]. *)
Lemma elem_of_forest d : ∀ ks n,
  ks = [] ∨ Dirs ks →
  (∀ ks', Dirs ks' → length ks' ≤ length ks + d) →
  n ∈ allNodes (forest d h (readLevel h (levelRef ks)))
  ↔ ∃ ks', ks `prefix_of` ks' ∧ (ks' = [] ∨ Dirs ks')
           ∧ n ∈ readLevel h (levelRef ks').
Proof.
  induction d as [|d IH]; intros ks n Hks Hbound.
  - rewrite allNodes_forest_0. split; [by exists ks|].
    intros (ks' & Hpre & Hks' & Hn). assert (ks = ks') as ->; [|done].
    apply prefix_length_eq; [done|]. destruct Hks' as [->|Hd]; simpl; [lia|].
    specialize (Hbound ks' Hd). lia.
  - rewrite allNodes_forest_S, elem_of_flat_map. split.
    + intros (c & Hc & [->|Hn]%elem_of_cons); [by exists ks|].
      unfold below in Hn. destruct (type c) eqn:Ht; [by apply elem_of_nil in Hn|].
      destruct (folder_in_level ks c Hks Hc Ht) as [Ec Hd].
      rewrite Ec in Hn. cbn [nodePath folderNode] in Hn.
      rewrite <- levelRef_snoc in Hn. apply IH in Hn as (ks' & Hpre & Hks' & Hn).
      * exists ks'. split; [|done]. by eapply prefix_app_l.
      * by right.
      * intros ks' Hd'. specialize (Hbound ks' Hd'). rewrite length_app. simpl. lia.
    + intros (ks' & [rest ->] & Hks' & Hn). destruct rest as [|s rest].
      * rewrite app_nil_r in Hn. exists n. split; [done|by left].
      * assert (Dirs (ks ++ [s])) as Hd.
        { destruct Hks' as [E|Hd]; [by apply app_nil in E as [_ ?]|].
          apply (dirs_prefix _ rest); [by destruct ks|]. by rewrite <- app_assoc. }
        exists (folderNode s (joinPath (ks ++ [s]))). split.
        -- apply (shape_level _ _ _ _ HI ks Hks). left. by exists s.
        -- right. unfold below. cbn [type nodePath folderNode].
           rewrite <- levelRef_snoc. apply IH; [by right| |].
           ++ intros ks' Hd'. specialize (Hbound ks' Hd'). rewrite length_app. simpl. lia.
           ++ exists (ks ++ s :: rest). split; [|done].
              exists rest. by rewrite <- app_assoc.
Qed.

(** No node is read twice. *)
Lemma NoDup_forest d : ∀ ks,
  ks = [] ∨ Dirs ks →
  (∀ ks', Dirs ks' → length ks' ≤ length ks + d) →
  NoDup (allNodes (forest d h (readLevel h (levelRef ks)))).
Proof.
  induction d as [|d IH]; intros ks Hks Hbound.
  - rewrite allNodes_forest_0. apply (shape_NoDup _ _ _ _ HI).
  - rewrite allNodes_forest_S.
    (* what lies below a folder node [c] of this array *)
    assert (∀ c y, c ∈ readLevel h (levelRef ks) → y ∈ below d h c →
              Dirs (ks ++ [name c])
              ∧ ∃ ks', ks ++ [name c] `prefix_of` ks' ∧ (ks' = [] ∨ Dirs ks')
                       ∧ y ∈ readLevel h (levelRef ks')) as Hbelow.
    { intros c y Hc Hy. unfold below in Hy.
      destruct (type c) eqn:Ht; [by apply elem_of_nil in Hy|].
      destruct (folder_in_level ks c Hks Hc Ht) as [Ec Hd]. split; [done|].
      rewrite Ec in Hy. cbn [nodePath folderNode] in Hy.
      rewrite <- levelRef_snoc in Hy. apply elem_of_forest in Hy; [done|by right|].
      intros ks' Hd'. specialize (Hbound ks' Hd'). rewrite length_app. simpl. lia. }
    assert (∀ c y, c ∈ readLevel h (levelRef ks) → y ∈ below d h c →
              y ∉ readLevel h (levelRef ks)) as Hdeeper.
    { intros c y Hc Hy Hy'. destruct (Hbelow c y Hc Hy) as (_ & ks' & Hpre & Hks' & Hin).
      assert (ks = ks') as <- by by eapply node_level.
      apply prefix_length in Hpre. rewrite length_app in Hpre. simpl in Hpre. lia. }
    apply NoDup_flat_map; [| |apply (shape_NoDup _ _ _ _ HI)].
    + intros c1 c2 y Hc1 Hc2 [->|Hy1]%elem_of_cons [->|Hy2]%elem_of_cons.
      * done.
      * exfalso. exact (Hdeeper _ _ Hc2 Hy2 Hc1).
      * exfalso. exact (Hdeeper _ _ Hc1 Hy1 Hc2).
      * destruct (Hbelow c1 y Hc1 Hy1) as (_ & k1 & Hpre1 & Hk1 & Hin1).
        destruct (Hbelow c2 y Hc2 Hy2) as (_ & k2 & Hpre2 & Hk2 & Hin2).
        assert (k1 = k2) as <- by by eapply node_level.
        destruct Hpre1 as [r1 ->], Hpre2 as [r2 E].
        rewrite <- !app_assoc in E. apply app_inv_head in E. injection E as En _.
        unfold below in Hy1, Hy2.
        destruct (type c1) eqn:Ht1; [by apply elem_of_nil in Hy1|].
        destruct (type c2) eqn:Ht2; [by apply elem_of_nil in Hy2|].
        destruct (folder_in_level ks c1 Hks Hc1 Ht1) as [E1 _].
        destruct (folder_in_level ks c2 Hks Hc2 Ht2) as [E2 _].
        rewrite E1, E2. by rewrite En.
    + intros c Hc. apply NoDup_cons. split.
      * intros Hin. exact (Hdeeper _ _ Hc Hin Hc).
      * unfold below. destruct (type c) eqn:Ht; [constructor|].
        destruct (folder_in_level ks c Hks Hc Ht) as [Ec Hd].
        rewrite Ec. cbn [nodePath folderNode]. rewrite <- levelRef_snoc.
        apply IH; [by right|].
        intros ks' Hd'. specialize (Hbound ks' Hd'). rewrite length_app. simpl. lia.
Qed.

(** Every sibling list of the forest is an array of the heap, or empty. *)
Lemma allLevels_forest (P : list Node → Prop) d : ∀ l,
  P [] → (∀ r, P (readLevel h r)) → P l → Forall P (allLevels (forest d h l)).
Proof.
  intros l Hnil Hall.
  assert (∀ d l, List.map nodeOf (forest d h l) = l) as Hroots.
  { intros d' l'. induction l' as [|n l' IH]; [by destruct d'|].
    destruct d'; simpl in *; by rewrite IH. }
  revert l. induction d as [|d IH]; intros l Hl.
  - unfold allLevels. rewrite Hroots. constructor; [done|].
    clear Hl. induction l as [|n l IHl]; simpl; [constructor|].
    destruct (type n); simpl; [done|]. by constructor.
  - unfold allLevels. rewrite Hroots. constructor; [done|].
    clear Hl. induction l as [|n l IHl]; [constructor|].
    cbn [forest List.map flat_map]. apply Forall_app. split; [|exact IHl].
    destruct (type n); cbn [levels]; [constructor|].
    apply (IH _ (Hall (childrenOf (nodePath n)))).
Qed.

(** Reading deeper than the deepest folder changes nothing: [forest] has
    then read the whole of the tree. *)
Lemma forest_deeper d : ∀ ks,
  ks = [] ∨ Dirs ks →
  (∀ ks', Dirs ks' → length ks' ≤ length ks + d) →
  forest (S d) h (readLevel h (levelRef ks)) = forest d h (readLevel h (levelRef ks)).
Proof.
  induction d as [|d IH]; intros ks Hks Hbound.
  - apply map_ext_in. intros c Hc%list_elem_of_In.
    destruct (type c) eqn:Ht; [done|]. exfalso.
    destruct (folder_in_level ks c Hks Hc Ht) as [_ Hd].
    specialize (Hbound _ Hd). rewrite length_app in Hbound. simpl in Hbound. lia.
  - apply map_ext_in. intros c Hc%list_elem_of_In.
    destruct (type c) eqn:Ht; [done|].
    destruct (folder_in_level ks c Hks Hc Ht) as [Ec Hd].
    rewrite Ec. cbn [nodePath folderNode]. rewrite <- levelRef_snoc.
    do 2 f_equal. apply IH; [by right|].
    intros ks' Hd'. specialize (Hbound ks' Hd'). rewrite length_app. simpl. lia.
Qed.

Lemma forest_deep_enough d d' : ∀ ks,
  ks = [] ∨ Dirs ks →
  (∀ ks', Dirs ks' → length ks' ≤ length ks + d) →
  d ≤ d' →
  forest d' h (readLevel h (levelRef ks)) = forest d h (readLevel h (levelRef ks)).
Proof.
  intros ks Hks Hbound Hle. induction Hle as [|d' Hle IH]; [done|].
  rewrite forest_deeper; [done..|].
  intros ks' Hd'. specialize (Hbound ks' Hd'). lia.
Qed.
End Forest.

(** ** Directories of a path *)

Section Directories.
Import FileBrowser.

Lemma split_at_slash s X d rest :
  JS.contains "/" s = false → s +:+ X = d +:+ "/" +:+ rest →
  ∃ d', d = s +:+ d' ∧ X = d' +:+ "/" +:+ rest.
Proof.
  revert d. induction s as [|x s IH]; intros d Hs E.
  - by exists d.
  - simpl in Hs. apply orb_false_iff in Hs as [Hx Hs].
    destruct d as [|y d].
    + rewrite sapp_nil_l, sapp_cons in E.
      change ("/" +:+ rest) with (String "/" rest) in E.
      by simplify_eq.
    + rewrite !sapp_cons in E. simplify_eq.
      destruct (IH d Hs ltac:(done)) as (d' & -> & ->). by exists d'.
Qed.

(** A slash inside a path ends one of its folders. *)
Lemma directory_segments segs : ∀ d rest,
  Forall validSegment segs → d ≠ "" → joinPath segs = d +:+ "/" +:+ rest →
  ∃ ks r, segs = ks ++ r ∧ ks ≠ [] ∧ r ≠ [] ∧ d = joinPath ks.
Proof.
  induction segs as [|s segs IH]; intros d rest Hvalid Hd E.
  - simpl in E. destruct d; [done|]. by rewrite sapp_cons in E.
  - apply Forall_cons in Hvalid as [[_ Hs] Hvalid].
    destruct d as [|c d]; [done|].
    simpl in E. change ("/" +:+ ?x) with (String "/" x) in E.
    rewrite sapp_cons in E. simplify_eq.
    destruct (split_at_slash s (joinPath segs) d rest Hs ltac:(done)) as (d' & -> & E').
    destruct d' as [|c' d'].
    + exists [s], segs. split; [done|]. split; [done|]. split.
      * intros ->. by rewrite sapp_nil_l in E'.
      * simpl. by rewrite !sapp_nil_r.
    + destruct (IH (String c' d') rest Hvalid ltac:(done) E') as (ks & r & -> & Hks & Hr & Ed).
      exists (s :: ks), r. split; [done|]. split; [done|]. split; [done|].
      simpl. by rewrite Ed.
Qed.

Lemma directoryOf_parts d p :
  FS.wellFormedPath p = true → directoryOf d p →
  ∃ ks r, pathParts p = ks ++ r ∧ ks ≠ [] ∧ r ≠ [] ∧ d = joinPath ks.
Proof.
  intros (_ & Hvalid & E)%wellFormedPath_parts [Hd (rest & _ & Ep)].
  apply (directory_segments _ d rest); [done..|]. by rewrite <- E.
Qed.

Lemma parts_directoryOf p ks r :
  FS.wellFormedPath p = true → pathParts p = ks ++ r → ks ≠ [] → r ≠ [] →
  directoryOf (joinPath ks) p.
Proof.
  intros (_ & Hvalid & E)%wellFormedPath_parts Hparts Hks Hr.
  rewrite Hparts in E, Hvalid. split; [by intros ?%joinPath_nil|].
  destruct r as [|s r]; [done|].
  apply Forall_app in Hvalid as [_ [[Hs _] _]%Forall_cons].
  exists (s +:+ joinPath r). split.
  - by destruct s.
  - by rewrite E, joinPath_app.
Qed.

Lemma depthBound_ge (files : list File) f :
  f ∈ files → length (pathParts (path f)) ≤ depthBound files.
Proof.
  induction files as [|g files IH]; [by intros ?%elem_of_nil|].
  intros [->|Hf]%elem_of_cons; simpl; [lia|]. specialize (IH Hf). lia.
Qed.

Lemma snoc_cases {A} (l : list A) : l ≠ [] → ∃ l' x, l = l' ++ [x].
Proof. destruct l as [|x l] using rev_ind; [done|]. intros _. by exists l, x. Qed.
End Directories.

(** ** The forest of [buildFileTree] *)

Section BuildFileTree.
Import FileBrowser.
Variable localeCompare : string → string → comparison.
Hypothesis locale_total : ∀ a b, localeCompare a b = Gt → localeCompare b a ≠ Gt.
Hypothesis locale_trans :
  ∀ a b c, localeCompare a b ≠ Gt → localeCompare b c ≠ Gt → localeCompare a c ≠ Gt.

Variable files : list File.
Hypothesis files_wf : Forall wellFormedFile files.
Hypothesis files_distinct : NoDup (path <$> files).

(** The loop ends, in a heap that is in shape for the files. *)
Lemma buildFileTree_heap :
  ∃ h, addFiles localeCompare
         (sort (λ a b, localeCompare (path a) (path b)) files)
         {| tree := []; folderMap := ∅ |} = Some h
       ∧ Inv localeCompare (isDir files) files h.
Proof.
  set (sortedFiles := sort _ files).
  assert (sortedFiles ≡ₚ files) as Hperm by apply sort_Permutation.
  destruct (addFiles_Inv localeCompare locale_total locale_trans sortedFiles []
              {| tree := []; folderMap := ∅ |}) as (h & Hh & HI).
  - by rewrite Hperm.
  - constructor.
  - rewrite app_nil_r, Hperm. by eapply NoDup_fmap_1.
  - apply Inv_empty.
  - exists h. split; [done|]. eapply Inv_ext; [|exact HI].
    intros f. by rewrite app_nil_r, Hperm.
Qed.

(** The nodes of the forest are the nodes of the arrays, each once. *)
Lemma buildFileTree_nodes h :
  Inv localeCompare (isDir files) files h →
  let forest := forest (depthBound files) h (tree h) in
  NoDup (allNodes forest)
  ∧ ∀ n, n ∈ allNodes forest
         ↔ ∃ ks, (ks = [] ∨ isDir files ks) ∧ expected (isDir files) files ks n.
Proof.
  intros HI. pose proof (isDir_DirsOK files files_wf) as HOK.
  assert (∀ ks', isDir files ks' → length ks' ≤ length (@nil string) + depthBound files)
    as Hbound.
  { intros ks' (_ & f & rest & Hf & _ & Hparts). apply depthBound_ge in Hf.
    rewrite Hparts, length_app in Hf. simpl. lia. }
  split.
  - apply (NoDup_forest localeCompare (isDir files) files h files_wf HOK HI _ []);
      [by left|done].
  - intros n.
    rewrite (elem_of_forest localeCompare (isDir files) files h HOK HI _ [] n
               ltac:(by left) Hbound).
    split.
    + intros (ks & _ & Hks & Hn). exists ks. split; [done|].
      by apply (shape_level _ _ _ _ HI).
    + intros (ks & Hks & Hn). exists ks. split; [apply prefix_nil|]. split; [done|].
      by apply (shape_level _ _ _ _ HI).
Qed.

(** [depthBound] is deep enough: a deeper reading yields the same forest. *)
Lemma buildFileTree_depth h d :
  Inv localeCompare (isDir files) files h → depthBound files ≤ d →
  forest d h (tree h) = forest (depthBound files) h (tree h).
Proof.
  intros HI Hd.
  apply (forest_deep_enough localeCompare (isDir files) files h HI _ _ []);
    [by left| |done].
  intros ks' (_ & f & rest & Hf & _ & Hparts). apply depthBound_ge in Hf.
  rewrite Hparts, length_app in Hf. simpl. lia.
Qed.
End BuildFileTree.

(** C10.  For files with well-formed, pairwise distinct paths, and a collation
    [localeCompare] that is a total preorder, [buildFileTree] returns a forest in
    which every input file is exactly one file node (with that file's path),
    every strict directory prefix of an input path is exactly one folder
    node, and in every sibling list the folders precede the files and nodes
    of the same type stand in ascending order of their names.  The forest
    has no other nodes. *)
Theorem buildFileTree_forest
    (localeCompare : string → string → comparison)
    (files : list FileBrowser.File) :
  (∀ a b, localeCompare a b = Gt → localeCompare b a ≠ Gt) →
  (∀ a b c, localeCompare a b ≠ Gt → localeCompare b c ≠ Gt → localeCompare a c ≠ Gt) →
  Forall (λ f, FS.wellFormedPath (FileBrowser.path f) = true) files →
  NoDup (FileBrowser.path <$> files) →
  ∃ forest,
    FileBrowser.buildFileTree localeCompare files = Some forest
    ∧ (∀ f, f ∈ files →
         FileBrowser.countFileNodes (FileBrowser.path f) forest = 1)
    ∧ (∀ f d, f ∈ files → FileBrowser.directoryOf d (FileBrowser.path f) →
         FileBrowser.countFolderNodes d forest = 1)
    ∧ Forall (StronglySorted (FileBrowser.siblingOrder localeCompare))
        (FileBrowser.allLevels forest)
    ∧ (∀ n, n ∈ FileBrowser.allNodes forest →
         (∃ f, f ∈ files ∧ FileBrowser.type n = FileBrowser.file
               ∧ FileBrowser.nodePath n = FileBrowser.path f
               ∧ FileBrowser.nodeFile n = Some f)
         ∨ (∃ f, f ∈ files ∧ FileBrowser.type n = FileBrowser.folder
                 ∧ FileBrowser.directoryOf (FileBrowser.nodePath n) (FileBrowser.path f))).
Proof.
  intros Htotal Htrans Hwf Hdistinct.
  destruct (buildFileTree_heap localeCompare Htotal Htrans files Hwf Hdistinct)
    as (h & Hh & HI).
  destruct (buildFileTree_nodes localeCompare files Hwf h HI) as [Hnodup Hnodes].
  pose proof (isDir_DirsOK files Hwf) as HOK.
  assert (∀ f, f ∈ files → FS.wellFormedPath (FileBrowser.path f) = true) as Hwf'
    by by apply Forall_forall.
  exists (FileBrowser.forest (FileBrowser.depthBound files) h (FileBrowser.tree h)).
  split; [unfold FileBrowser.buildFileTree; by rewrite Hh|].
  split; [|split; [|split]].
  - (* files *)
    intros f Hf.
    destruct (wellFormedPath_parts _ (Hwf' f Hf)) as (Hne & Hvalid & _).
    destruct (snoc_cases _ Hne) as (ks & s & Hparts).
    apply (filter_length_one
             (λ n, FileBrowser.type n = FileBrowser.file
                   ∧ FileBrowser.nodePath n = FileBrowser.path f)
             _ (FileBrowser.fileNode s f)); [done| |done|].
    + apply Hnodes. exists ks. split.
      * destruct ks as [|k ks]; [by left|right]. split; [done|]. by exists f, [s].
      * right. by exists f, s.
    + intros y (ks' & Hks' & [(s' & -> & _)|(f' & s' & Hf' & Hparts' & ->)])%Hnodes
        [Ht Hp]; [done|].
      simpl in Hp. assert (f' = f) as -> by by eapply NoDup_fmap_eq.
      rewrite Hparts in Hparts'. by apply app_inj_tail in Hparts' as [_ ->].
  - (* folders *)
    intros f d Hf Hd.
    destruct (directoryOf_parts d _ (Hwf' f Hf) Hd) as (ks & r & Hparts & Hks & Hr & ->).
    assert (FileBrowser.isDir files ks) as Hdir by (split; [done|by exists f, r]).
    destruct (snoc_cases _ Hks) as (ks0 & s & ->).
    apply (filter_length_one
             (λ n, FileBrowser.type n = FileBrowser.folder
                   ∧ FileBrowser.nodePath n = FileBrowser.joinPath (ks0 ++ [s]))
             _ (FileBrowser.folderNode s (FileBrowser.joinPath (ks0 ++ [s]))));
      [done| |done|].
    + apply Hnodes. exists ks0. split.
      * destruct (FileBrowser.dirs_closed _ _ HOK ks0 s Hdir); auto.
      * left. by exists s.
    + intros y (ks' & Hks' & [(s' & -> & Hd')|(f' & s' & _ & _ & ->)])%Hnodes
        [Ht Hp]; [|done].
      simpl in Hp. apply joinPath_inj in Hp.
      * by apply app_inj_tail in Hp as [-> ->].
      * by apply (FileBrowser.dirs_valid _ _ HOK).
      * by apply (FileBrowser.dirs_valid _ _ HOK).
  - (* sibling order *)
    apply allLevels_forest.
    + constructor.
    + apply (FileBrowser.shape_sorted _ _ _ _ HI).
    + apply (FileBrowser.shape_sorted _ _ _ _ HI FileBrowser.rootLevel).
  - (* nothing else *)
    intros n (ks & Hks & [(s & -> & Hd)|(f & s & Hf & Hparts & ->)])%Hnodes.
    + right. destruct Hd as (Hne & f & rest & Hf & Hrest & Hparts).
      exists f. split; [done|]. split; [done|]. simpl.
      by apply (parts_directoryOf _ _ rest); auto.
    + left. by exists f.
Qed.

(** ** Code-unit order is a collation *)

Section CodeUnitOrder.
Import FileBrowser.

Lemma codeUnitCompare_le a b : codeUnitCompare a b ≠ Gt ↔ String.le a b.
Proof.
  unfold codeUnitCompare, String.le, String.leb.
  destruct (String.compare a b); simpl; split; done.
Qed.

Lemma codeUnitCompare_total a b :
  codeUnitCompare a b = Gt → codeUnitCompare b a ≠ Gt.
Proof.
  unfold codeUnitCompare. rewrite (String.compare_antisym a b).
  by destruct (String.compare b a).
Qed.

Lemma codeUnitCompare_trans a b c :
  codeUnitCompare a b ≠ Gt → codeUnitCompare b c ≠ Gt → codeUnitCompare a c ≠ Gt.
Proof. rewrite !codeUnitCompare_le. apply transitivity. Qed.
End CodeUnitOrder.

Lemma buildFileTree_forest_witness :
  let files :=
    [ {| FileBrowser.path := "/src/b.ts"; FileBrowser.content := "b" |};
      {| FileBrowser.path := "/readme.md"; FileBrowser.content := "r" |};
      {| FileBrowser.path := "/src/lib/a.ts"; FileBrowser.content := "a" |} ] in
  ∃ forest,
    FileBrowser.buildFileTree FileBrowser.codeUnitCompare files = Some forest
    ∧ (∀ f, f ∈ files →
         FileBrowser.countFileNodes (FileBrowser.path f) forest = 1)
    ∧ (∀ f d, f ∈ files → FileBrowser.directoryOf d (FileBrowser.path f) →
         FileBrowser.countFolderNodes d forest = 1)
    ∧ Forall (StronglySorted (FileBrowser.siblingOrder FileBrowser.codeUnitCompare))
        (FileBrowser.allLevels forest)
    ∧ (∀ n, n ∈ FileBrowser.allNodes forest →
         (∃ f, f ∈ files ∧ FileBrowser.type n = FileBrowser.file
               ∧ FileBrowser.nodePath n = FileBrowser.path f
               ∧ FileBrowser.nodeFile n = Some f)
         ∨ (∃ f, f ∈ files ∧ FileBrowser.type n = FileBrowser.folder
                 ∧ FileBrowser.directoryOf (FileBrowser.nodePath n) (FileBrowser.path f))).
Proof.
  apply (buildFileTree_forest FileBrowser.codeUnitCompare).
  - apply codeUnitCompare_total.
  - apply codeUnitCompare_trans.
  - repeat constructor.
  - apply (bool_decide_unpack _). vm_compute. exact I.
Defined.

(** The forest of these files, computed. *)
Example buildFileTree_example :
  FileBrowser.allLevels <$>
    FileBrowser.buildFileTree FileBrowser.codeUnitCompare
      [ {| FileBrowser.path := "/src/b.ts"; FileBrowser.content := "b" |};
        {| FileBrowser.path := "/readme.md"; FileBrowser.content := "r" |};
        {| FileBrowser.path := "/src/lib/a.ts"; FileBrowser.content := "a" |} ]
  = Some
      [ [ FileBrowser.folderNode "src" "/src";
          FileBrowser.fileNode "readme.md"
            {| FileBrowser.path := "/readme.md"; FileBrowser.content := "r" |} ];
        [ FileBrowser.folderNode "lib" "/src/lib";
          FileBrowser.fileNode "b.ts"
            {| FileBrowser.path := "/src/b.ts"; FileBrowser.content := "b" |} ];
        [ FileBrowser.fileNode "a.ts"
            {| FileBrowser.path := "/src/lib/a.ts"; FileBrowser.content := "a" |} ] ].
Proof. vm_compute. reflexivity. Qed.

(** * Further properties *)

(** ** [artifactLanguage] *)

Section Language.
Implicit Types (s p seg : string).

Lemma lower_char_idemp c : JS.lower_char (JS.lower_char c) = JS.lower_char c.
Proof. destruct c as [[] [] [] [] [] [] [] []]; reflexivity. Qed.

Lemma toLowerCase_idemp s : JS.toLowerCase (JS.toLowerCase s) = JS.toLowerCase s.
Proof. induction s as [|c s IH]; [done|]. simpl. by rewrite lower_char_idemp, IH. Qed.

Lemma pop_split_no_sep c s x :
  JS.pop (JS.split c s) = Some x → JS.contains c x = false.
Proof.
  intros Hx. apply (split_parts_no_sep c s). unfold JS.pop in Hx.
  by apply last_Some_elem_of.
Qed.

(** The language as a function of the lowered path. *)
Lemma artifactLanguage_lower p :
  artifactLanguage p
  = let ext := default "" (JS.pop (JS.split "." (JS.toLowerCase p))) in
    let basename := default "" (JS.pop (JS.split "/" (JS.toLowerCase p))) in
    if String.eqb basename "dockerfile" || JS.startsWith basename "dockerfile."
    then "dockerfile"
    else if String.eqb basename "makefile" || JS.startsWith basename "makefile."
    then "makefile"
    else ext.
Proof.
  unfold artifactLanguage.
  by rewrite (lower_pop_split "." p caseless_dot), (lower_pop_split "/" p caseless_slash).
Qed.

Lemma startsWith_head s c r :
  JS.startsWith s (String c r) = true → ∃ s', s = String c s'.
Proof.
  destruct s as [|x s]; simpl; [done|].
  destruct (Ascii.eqb_spec x c) as [->|]; [by exists s|done].
Qed.
End Language.

(** X1.  A path whose final segment, lowercased, is [dockerfile] or begins
    with [dockerfile.] has the language [dockerfile]; likewise [makefile]:
    the reserved basenames win over the extension. *)
Theorem artifactLanguage_reserved_basename (p seg : string) :
  final_segment p seg →
  ((JS.toLowerCase seg = "dockerfile"
    ∨ JS.startsWith (JS.toLowerCase seg) "dockerfile." = true) →
   artifactLanguage p = "dockerfile")
  ∧ ((JS.toLowerCase seg = "makefile"
      ∨ JS.startsWith (JS.toLowerCase seg) "makefile." = true) →
     artifactLanguage p = "makefile").
Proof.
  intros Hp. unfold artifactLanguage.
  rewrite (final_segment_pop p seg Hp). simpl JS.lower_or_empty. split.
  - intros [->| ->]; [done|]. by rewrite orb_true_r.
  - intros [->|H]; [done|].
    destruct (startsWith_head _ _ _ H) as [s' E]. rewrite E in H |- *.
    rewrite H, orb_true_r. reflexivity.
Qed.

Lemma artifactLanguage_reserved_basename_witness :
  artifactLanguage "/build/Makefile.am" = "makefile".
Proof.
  refine (proj2 (artifactLanguage_reserved_basename
                   "/build/Makefile.am" "Makefile.am" _) _).
  - split; [reflexivity|]. right. exists "/build". reflexivity.
  - right. reflexivity.
Defined.

(** X2.  [artifactLanguage] is insensitive to letter case, in the final
    segment and anywhere else in the path. *)
Theorem artifactLanguage_case_insensitive (p q : string) :
  JS.toLowerCase p = JS.toLowerCase q → artifactLanguage p = artifactLanguage q.
Proof. intros H. rewrite !artifactLanguage_lower. by rewrite H. Qed.

Lemma artifactLanguage_case_insensitive_witness :
  artifactLanguage "/Src/Main.TSX" = artifactLanguage "/src/main.tsx".
Proof.
  apply (artifactLanguage_case_insensitive "/Src/Main.TSX" "/src/main.tsx").
  reflexivity.
Defined.

(** X3.  The language [artifactLanguage] returns is in lower case and has no
    dot in it. *)
Theorem artifactLanguage_token (p : string) :
  JS.toLowerCase (artifactLanguage p) = artifactLanguage p
  ∧ JS.contains "." (artifactLanguage p) = false.
Proof.
  unfold artifactLanguage.
  destruct (_ || _); [done|]. destruct (_ || _); [done|].
  destruct (pop_split_is_Some "." p) as [x Hx]. rewrite Hx. simpl. split.
  - apply toLowerCase_idemp.
  - rewrite (contains_toLowerCase "." x caseless_dot).
    by apply (pop_split_no_sep "." p).
Qed.

(** X4.  When the final segment of a path has a dot, the language depends on
    that segment alone: it is the language of the segment taken as a path. *)
Theorem artifactLanguage_of_segment (p seg : string) :
  final_segment p seg → JS.contains "." seg = true →
  artifactLanguage p = artifactLanguage seg.
Proof.
  intros Hp Hdot. unfold artifactLanguage.
  rewrite (final_segment_pop p seg Hp).
  rewrite (final_segment_pop seg seg) by (split; [apply Hp|by left]).
  destruct Hp as [Hseg [->|[dir ->]]]; [done|].
  rewrite (pop_split_app_sep "." dir) by (by rewrite contains_app, Hdot, orb_true_r).
  change ("/" +:+ seg) with (String "/" seg).
  by rewrite pop_split_String, Hdot.
Qed.

Lemma artifactLanguage_of_segment_witness :
  artifactLanguage "/v1.2/app.test.ts" = artifactLanguage "app.test.ts".
Proof.
  apply (artifactLanguage_of_segment "/v1.2/app.test.ts" "app.test.ts").
  - split; [reflexivity|]. right. exists "/v1.2". reflexivity.
  - reflexivity.
Defined.

(** X5.  A path whose language is one of the [codeExtensions] is of kind
    [code]: none of them is taken by the markup, data or diagram kinds. *)
Theorem artifactLanguage_code (p : string) :
  includes codeExtensions (artifactLanguage p) = true → artifactKind p = code.
Proof.
  unfold artifactLanguage, artifactKind. cbv zeta.
  destruct (_ || _); [done|]. destruct (_ || _); [done|].
  set (ext := JS.lower_or_empty _). intros Hin.
  assert (∀ s, includes codeExtensions s = false → String.eqb ext s = false) as Hne.
  { intros s Hs. apply String.eqb_neq. intros E. rewrite E in Hin. congruence. }
  rewrite !Hne by reflexivity. cbn [orb]. by rewrite Hin.
Qed.

Lemma artifactLanguage_code_witness : artifactKind "/src/Main.RS" = code.
Proof. apply (artifactLanguage_code "/src/Main.RS"). reflexivity. Defined.

(** ** The tools, continued *)

(** X6.  [list_files], [read_file], [current_path] and [current_file] only
    read: whatever the arguments, they make no mutating Store call and leave
    the Store as it was. *)
Theorem reading_tools_do_not_write
    (fs : option FS.FileSystemManager) (activeFile : option string)
    (args : gmap string string) :
  Forall (λ o, Tools.calls o = [] ∧ Tools.store o = fs)
    [ Tools.list_files fs args; Tools.read_file fs args;
      Tools.current_path fs activeFile args; Tools.current_file fs activeFile args ].
Proof.
  repeat apply Forall_cons_2; [..|apply Forall_nil_2].
  - unfold Tools.list_files. by repeat case_match.
  - unfold Tools.read_file. by repeat case_match.
  - unfold Tools.current_path. by repeat case_match.
  - unfold Tools.current_file. by repeat case_match.
Qed.

(** X7.  No tool makes more than one mutating Store call, and a tool that
    makes none leaves the Store as it was. *)
Theorem tools_call_at_most_once
    (fs : option FS.FileSystemManager) (activeFile : option string) :
  Forall (λ tool, ∀ args : gmap string string,
            let o := Tools.function tool args in
            length (Tools.calls o) ≤ 1 ∧ (Tools.calls o = [] → Tools.store o = fs))
    (Tools.artifactsTools fs activeFile).
Proof.
  repeat apply Forall_cons_2; [..|apply Forall_nil_2]; intros args; cbn [Tools.function].
  - unfold Tools.create_file. repeat case_match; simpl; split; (lia || done).
  - unfold Tools.list_files. repeat case_match; simpl; split; (lia || done).
  - unfold Tools.delete_file. repeat case_match; simpl; split; (lia || done).
  - unfold Tools.move_file. repeat case_match; simpl; split; (lia || done).
  - unfold Tools.read_file. repeat case_match; simpl; split; (lia || done).
  - unfold Tools.current_path. repeat case_match; simpl; split; (lia || done).
  - unfold Tools.current_file. repeat case_match; simpl; split; (lia || done).
Qed.

(** X8.  Without a filesystem ([fs] is [null]): on arguments that are
    strings the five tools that work on files answer with an error and call
    nothing, and [current_path] still answers.  [create_file] tests its path
    before it tests [fs]: on arguments of any type it throws a [TypeError]
    when the path does not convert to a string, or is a truthy value that is
    no string while the content is truthy, and in every other case it
    answers with an error and calls nothing. *)
Theorem tools_without_filesystem
    (activeFile : option string) (args : gmap string string)
    (anyArgs : gmap string Tools.Json) :
  Forall (λ o, Tools.hasError (Tools.response o) = true ∧ Tools.calls o = [])
    [ Tools.create_file None args; Tools.list_files None args;
      Tools.delete_file None args; Tools.move_file None args;
      Tools.read_file None args ]
  ∧ Tools.hasSuccess (Tools.response (Tools.current_path None activeFile args)) = true
  ∧ (if Untyped.rejected anyArgs
     then Untyped.create_file None anyArgs = Untyped.Rejects
     else ∃ o, Untyped.create_file None anyArgs = Untyped.Resolves o
               ∧ Tools.hasError (Tools.response o) = true ∧ Tools.calls o = []).
Proof.
  split; [|split].
  - repeat apply Forall_cons_2; [..|apply Forall_nil_2].
    + unfold Tools.create_file. by repeat case_match.
    + done.
    + unfold Tools.delete_file. by repeat case_match.
    + unfold Tools.move_file. by repeat case_match.
    + unfold Tools.read_file. by repeat case_match.
  - unfold Tools.current_path. by repeat case_match.
  - destruct (Untyped.rejected anyArgs) eqn:Hr; [by apply create_file_rejects|].
    assert (Untyped.create_file None anyArgs ≠ Untyped.Rejects) as Hne
      by (rewrite create_file_rejects, Hr; done).
    unfold Untyped.create_file in *.
    repeat case_match; try done; by eexists.
Qed.

(** X9.  [move_file] validates before it mutates: with both paths given, it
    calls [renameFile] exactly when the source is a stored record, the
    destination is not, and the destination starts with a slash; otherwise it
    answers with an error, calls nothing and leaves the Store as it was. *)
Theorem move_file_guards
    (m : FS.FileSystemManager) (args : gmap string string) (fromPath toPath : string) :
  args !! "fromPath" = Some fromPath → args !! "toPath" = Some toPath →
  fromPath ≠ "" → toPath ≠ "" →
  let o := Tools.move_file (Some m) args in
  let valid := is_Some (FS.getFile m fromPath) ∧ FS.getFile m toPath = None
               ∧ JS.startsWith toPath "/" = true in
  (valid → Tools.calls o = [Tools.renameFileCall fromPath toPath])
  ∧ (¬ valid → Tools.hasError (Tools.response o) = true
               ∧ Tools.calls o = [] ∧ Tools.store o = Some m).
Proof.
  intros Hf Ht Hfne Htne. unfold Tools.move_file. rewrite Hf, Ht.
  destruct fromPath as [|c f]; [done|]. destruct toPath as [|c' t]; [done|].
  set (fromPath := String c f). set (toPath := String c' t).
  destruct (FS.getFile m fromPath) as [src|] eqn:Hsrc; cbv zeta.
  - destruct (FS.getFile m toPath) as [dst|] eqn:Hdst.
    + split; [by intros (_ & ? & _)|done].
    + destruct (JS.startsWith toPath "/") eqn:Hslash; cbn [negb].
      * split; [|intros H; by destruct H].
        intros _. by repeat case_match.
      * split; [by intros (_ & _ & ?)|done].
  - split; [by intros ([? ?] & _)|done].
Qed.

Lemma move_file_guards_witness :
  let m := FS.ofList [("/a.txt", "a")] in
  let o := Tools.move_file (Some m)
             (list_to_map [("fromPath", "/a.txt"); ("toPath", "/b.txt")]) in
  let valid := is_Some (FS.getFile m "/a.txt") ∧ FS.getFile m "/b.txt" = None
               ∧ JS.startsWith "/b.txt" "/" = true in
  (valid → Tools.calls o = [Tools.renameFileCall "/a.txt" "/b.txt"])
  ∧ (¬ valid → Tools.hasError (Tools.response o) = true
               ∧ Tools.calls o = [] ∧ Tools.store o = Some m).
Proof.
  apply (move_file_guards (FS.ofList [("/a.txt", "a")])
           (list_to_map [("fromPath", "/a.txt"); ("toPath", "/b.txt")])
           "/a.txt" "/b.txt"); (reflexivity || discriminate).
Defined.

Section Listing.
Import FS Tools.

Lemma listedPaths_files (l : list FileRecord) n :
  listedPaths
    (JObj [("success", JBool true);
           ("files",
            JArr (List.map (λ file, JObj [("path", JStr (path file));
                                          ("size", JNum (JS.length (content file)));
                                          ("contentType", JStr (kindName (contentType file)))])
                    l));
           ("count", n)])
  = path <$> l.
Proof.
  transitivity
    (omap (λ item, match get "path" item with Some (JStr q) => Some q | _ => None end)
       (List.map (λ file, JObj [("path", JStr (path file));
                                ("size", JNum (JS.length (content file)));
                                ("contentType", JStr (kindName (contentType file)))]) l));
    [reflexivity|].
  induction l as [|f l IH]; [done|]. cbn. by f_equal.
Qed.

Lemma matchesDirectory_startsWith d p :
  matchesDirectory d p = true → JS.startsWith p d = true.
Proof.
  unfold matchesDirectory. intros [->%String.eqb_eq|H]%orb_true_iff.
  - clear. induction d as [|c d IH]; [done|]. simpl. by rewrite Ascii.eqb_refl.
  - revert p H. induction d as [|c d IH]; intros p H; [by destruct p|].
    destruct p as [|x p]; [done|]. rewrite sapp_cons in H. simpl in *.
    apply andb_true_iff in H as [-> H]. by apply IH.
Qed.
End Listing.

(** X10.  With no [directory] argument, or an empty one, [list_files] lists
    every record of the Store, and [count] is their number. *)
Theorem list_files_unfiltered
    (m : FS.FileSystemManager) (args : gmap string string) :
  args !! "directory" = None ∨ args !! "directory" = Some "" →
  let r := Tools.response (Tools.list_files (Some m) args) in
  Tools.hasSuccess r = true
  ∧ Tools.listedPaths r = FS.path <$> FS.listFiles m
  ∧ Tools.get "count" r = Some (Tools.JNum (length (FS.listFiles m))).
Proof.
  intros Hd. unfold Tools.list_files.
  assert (∀ l, match args !! "directory" with
               | Some (String _ _ as d) =>
                   List.filter (λ file, JS.startsWith (FS.path file) d) l
               | _ => l
               end = l) as Hall by (intros l; by destruct Hd as [-> | ->]).
  cbv zeta. rewrite Hall. cbn [Tools.response Tools.reply].
  split; [done|]. split; [apply listedPaths_files|].
  cbn. by rewrite length_map.
Qed.

Lemma list_files_unfiltered_witness :
  let m := FS.ofList [("/a.txt", "a"); ("/src/b.ts", "b")] in
  let r := Tools.response (Tools.list_files (Some m) ∅) in
  Tools.hasSuccess r = true
  ∧ Tools.listedPaths r = FS.path <$> FS.listFiles m
  ∧ Tools.get "count" r = Some (Tools.JNum (length (FS.listFiles m))).
Proof.
  apply (list_files_unfiltered (FS.ofList [("/a.txt", "a"); ("/src/b.ts", "b")]) ∅).
  left. reflexivity.
Defined.

(** X11.  With a non-empty [directory], [list_files] lists the records whose
    path begins with the characters of [directory], [count] is their number,
    and no record of the directory is missing: every record whose path is
    [directory] or starts with [directory + '/'] is listed. *)
Theorem list_files_covers_directory
    (m : FS.FileSystemManager) (args : gmap string string) (d : string) :
  args !! "directory" = Some d → d ≠ "" →
  let r := Tools.response (Tools.list_files (Some m) args) in
  Tools.listedPaths r
  = FS.path <$> List.filter (λ f, JS.startsWith (FS.path f) d) (FS.listFiles m)
  ∧ Tools.get "count" r = Some (Tools.JNum (length (Tools.listedPaths r)))
  ∧ ∀ f, f ∈ FS.listFiles m → Tools.matchesDirectory d (FS.path f) = true →
         FS.path f ∈ Tools.listedPaths r.
Proof.
  intros Hd Hne r.
  assert (Tools.listedPaths r
          = FS.path <$> List.filter (λ f, JS.startsWith (FS.path f) d) (FS.listFiles m))
    as Hlist by by apply list_files_listedPaths.
  split; [done|]. split.
  - rewrite Hlist. subst r. unfold Tools.list_files. rewrite Hd.
    destruct d as [|c d]; [done|]. cbn. by rewrite length_fmap, length_map.
  - intros f Hf Hmatch. rewrite Hlist. apply list_elem_of_fmap_2.
    apply list_elem_of_In, filter_In. split; [by apply list_elem_of_In|].
    by apply matchesDirectory_startsWith.
Qed.

Lemma list_files_covers_directory_witness :
  let m := FS.ofList [("/src/a.ts", "a"); ("/src2/a.ts", "b")] in
  let r := Tools.response (Tools.list_files (Some m) {["directory" := "/src"]}) in
  Tools.listedPaths r
  = FS.path <$> List.filter (λ f, JS.startsWith (FS.path f) "/src") (FS.listFiles m)
  ∧ Tools.get "count" r = Some (Tools.JNum (length (Tools.listedPaths r)))
  ∧ ∀ f, f ∈ FS.listFiles m → Tools.matchesDirectory "/src" (FS.path f) = true →
         FS.path f ∈ Tools.listedPaths r.
Proof.
  apply (list_files_covers_directory
           (FS.ofList [("/src/a.ts", "a"); ("/src2/a.ts", "b")])
           {["directory" := "/src"]} "/src"); (reflexivity || discriminate).
Defined.

(** X12.  With a non-empty path that starts with a slash, a non-empty content
    and a filesystem, [create_file] calls the Store's [createFile] with that
    path and content, once, and it reports success exactly when the call
    returns (does not throw). *)
Theorem create_file_reaches_store
    (m : FS.FileSystemManager) (args : gmap string string) (p c : string) :
  args !! "path" = Some p → args !! "content" = Some c →
  c ≠ "" → JS.startsWith p "/" = true →
  let o := Tools.create_file (Some m) args in
  Tools.calls o = [Tools.createFileCall p c]
  ∧ (Tools.hasSuccess (Tools.response o) = true
     ↔ ∃ r m', FS.createFile m p c = FS.Ok (r, m') ∧ Tools.store o = Some m').
Proof.
  intros Hp Hc Hcne Hslash. unfold Tools.create_file. rewrite Hp, Hc.
  destruct p as [|x p]; [done|]. destruct c as [|y c]; [done|].
  rewrite Hslash. cbn [negb].
  destruct (FS.createFile m _ _) as [[r m']|e]; simpl.
  - split; [done|]. split; [|done]. intros _. by exists r, m'.
  - split; [done|]. split; [done|]. by intros (? & ? & ? & _).
Qed.

Lemma create_file_reaches_store_witness :
  let o := Tools.create_file (Some FS.empty)
             (list_to_map [("path", "/notes.md"); ("content", "hello")]) in
  Tools.calls o = [Tools.createFileCall "/notes.md" "hello"]
  ∧ (Tools.hasSuccess (Tools.response o) = true
     ↔ ∃ r m', FS.createFile FS.empty "/notes.md" "hello" = FS.Ok (r, m')
               ∧ Tools.store o = Some m').
Proof.
  apply (create_file_reaches_store FS.empty
           (list_to_map [("path", "/notes.md"); ("content", "hello")])
           "/notes.md" "hello"); (reflexivity || discriminate).
Defined.

(** X24.  [current_file] answers what [read_file] answers for the path that
    [current_path] reports, as long as the Store keeps the record of that
    path under the path itself: both succeed or both fail, and the
    [currentFile] of the one is the [file] of the other.  And [current_file]
    reports [null] exactly when [current_path] reports [null]. *)
Theorem current_file_reads_current_path
    (fs : option FS.FileSystemManager) (activeFile : option string)
    (args : gmap string string) :
  (∀ (readArgs : gmap string string) (p : string),
     Tools.get "currentPath" (Tools.response (Tools.current_path fs activeFile args))
     = Some (Tools.JStr p) →
     readArgs !! "path" = Some p →
     (∀ m file, fs = Some m → FS.getFile m p = Some file → FS.path file = p) →
     let c := Tools.response (Tools.current_file fs activeFile args) in
     let r := Tools.response (Tools.read_file fs readArgs) in
     Tools.hasSuccess c = Tools.hasSuccess r
     ∧ Tools.hasError c = Tools.hasError r
     ∧ Tools.get "currentFile" c = Tools.get "file" r)
  ∧ (Tools.get "currentPath" (Tools.response (Tools.current_path fs activeFile args))
     = Some Tools.JNull
     ↔ Tools.get "currentFile" (Tools.response (Tools.current_file fs activeFile args))
       = Some Tools.JNull).
Proof.
  split.
  - intros readArgs p Hcur Hp Hkey.
    unfold Tools.current_path in Hcur. unfold Tools.current_file, Tools.read_file.
    destruct activeFile as [[|x a]|]; [done| |done].
    injection Hcur as <-. rewrite Hp.
    destruct fs as [m|]; [|done].
    destruct (FS.getFile m (String x a)) as [file|] eqn:Hfile; [|done].
    cbn. by rewrite (Hkey m file eq_refl Hfile).
  - unfold Tools.current_path, Tools.current_file.
    destruct activeFile as [[|x a]|]; [done| |done].
    destruct fs as [m|]; [|done].
    by destruct (FS.getFile m (String x a)).
Qed.

Lemma current_file_reads_current_path_witness :
  let fs := Some (FS.ofList [("/a.txt", "a")]) in
  let c := Tools.response (Tools.current_file fs (Some "/a.txt") ∅) in
  let r := Tools.response (Tools.read_file fs {["path" := "/a.txt"]}) in
  Tools.hasSuccess c = Tools.hasSuccess r
  ∧ Tools.hasError c = Tools.hasError r
  ∧ Tools.get "currentFile" c = Tools.get "file" r.
Proof.
  refine (proj1 (current_file_reads_current_path
                   (Some (FS.ofList [("/a.txt", "a")])) (Some "/a.txt") ∅)
            {["path" := "/a.txt"]} "/a.txt" _ _ _).
  - reflexivity.
  - reflexivity.
  - intros m file [= <-]. vm_compute. by intros [= <-].
Defined.

(** ** The file browser: renaming *)

Section SplitJoin.
Implicit Types (s a b v : string) (c : ascii) (l : list string).

Lemma join_cons c x l :
  l ≠ [] → JSLib.join (String c "") (x :: l) = x +:+ String c (JSLib.join (String c "") l).
Proof. by destruct l. Qed.



Lemma split_app_sep c a b :
  JS.split c (a +:+ String c b) = JS.split c a ++ JS.split c b.
Proof.
  induction a as [|x a IH].
  - rewrite sapp_nil_l. simpl. by rewrite Ascii.eqb_refl.
  - rewrite sapp_cons. simpl. rewrite IH.
    destruct (Ascii.eqb x c); [done|].
    pose proof (split_not_nil c a). by destruct (JS.split c a).
Qed.

Lemma join_split_id c s : JSLib.join (String c "") (JS.split c s) = s.
Proof.
  induction s as [|x s IH]; [done|]. simpl.
  pose proof (split_not_nil c s) as Hne.
  destruct (Ascii.eqb_spec x c) as [->|Hx].
  - rewrite join_cons by done. by rewrite IH.
  - destruct (JS.split c s) as [|h t]; [done|].
    destruct t as [|h' t]; simpl in *; [by rewrite IH|].
    rewrite sapp_cons. by rewrite IH.
Qed.

End SplitJoin.

(** X13.  [split] and [join] are inverse to each other: joining the parts of
    a string with the separator gives the string back, and splitting the join
    of parts that are free of the separator gives the parts back. *)
Theorem split_join_round_trip (c : ascii) :
  (∀ s, JSLib.join (String c "") (JS.split c s) = s)
  ∧ (∀ l, l ≠ [] → Forall (λ x, JS.contains c x = false) l →
          JS.split c (JSLib.join (String c "") l) = l).
Proof.
  split; [apply join_split_id|].
  induction l as [|x l IH]; [done|]. intros _ [Hx Hl]%Forall_cons.
  destruct l as [|y l]; [by apply split_no_sep|].
  rewrite join_cons by done. rewrite split_app_sep, (split_no_sep c x Hx).
  by rewrite IH.
Qed.

Lemma split_join_round_trip_witness :
  JS.split "/" (JSLib.join "/" [""; "src"; "a.ts"]) = [""; "src"; "a.ts"].
Proof.
  refine (proj2 (split_join_round_trip "/") [""; "src"; "a.ts"] _ _).
  - discriminate.
  - repeat constructor.
Defined.



(** An input of white space outside ASCII, here a no-break space (U+00A0),
    is blank as well: [saveRename] calls nothing. *)
Example saveRename_no_break_space :
  let node := FileBrowser.fileNode "a.ts"
                {| FileBrowser.path := "/src/a.ts"; FileBrowser.content := "x" |} in
  JSLib.trim (JS.utf8 0xA0) = ""
  ∧ Browser.saveRename node (JS.utf8 0xA0) = None
  ∧ Browser.saveRename node (JS.utf8 0xA0 +:+ "b.ts" +:+ JS.utf8 0x3000)
    = Some ("/src/a.ts", "/src/b.ts").
Proof. repeat split; reflexivity. Qed.

(** ** The file browser: the expanded folders *)

Section SetFacts.
Implicit Types (x y : string) (s : JSSet.t).

Lemma has_true x s : JSSet.has x s = true ↔ x ∈ s.
Proof. unfold JSSet.has. apply bool_decide_eq_true. Qed.

Lemma has_false x s : JSSet.has x s = false ↔ x ∉ s.
Proof. unfold JSSet.has. apply bool_decide_eq_false. Qed.

Lemma elem_of_add x y s : y ∈ JSSet.add x s ↔ y = x ∨ y ∈ s.
Proof.
  unfold JSSet.add. destruct (JSSet.has x s) eqn:H.
  - apply has_true in H. split; [by right|]. by intros [->|].
  - rewrite elem_of_app, list_elem_of_singleton. tauto.
Qed.

Lemma elem_of_delete x y s : y ∈ JSSet.delete x s ↔ y ∈ s ∧ y ≠ x.
Proof.
  unfold JSSet.delete. rewrite list_elem_of_In, filter_In, <- list_elem_of_In.
  rewrite negb_true_iff, String.eqb_neq. tauto.
Qed.

(** A loop that deletes, from a set, the elements of an array that meet a
    test. *)
Lemma elem_of_foldl_delete (P : string → bool) (l : list string) : ∀ s x,
  x ∈ foldl (λ acc e, if P e then JSSet.delete e acc else acc) s l
  ↔ x ∈ s ∧ ¬ (x ∈ l ∧ P x = true).
Proof.
  induction l as [|e l IH]; intros s x; simpl.
  - split; [|tauto]. intros Hx. split; [done|]. by intros [?%elem_of_nil _].
  - rewrite IH. destruct (P e) eqn:He.
    + rewrite elem_of_delete, elem_of_cons. split.
      * intros [[Hx Hne] Hn]. split; [done|]. intros [[->|Hl] HP]; tauto.
      * intros [Hx Hn]. split; [split; [done|]|].
        -- intros ->. apply Hn. split; [by left|done].
        -- intros [Hl HP]. apply Hn. split; [by right|done].
    + rewrite elem_of_cons. split.
      * intros [Hx Hn]. split; [done|]. intros [[->|Hl] HP]; [congruence|tauto].
      * intros [Hx Hn]. split; [done|]. intros [Hl HP]. apply Hn. split; [by right|done].
Qed.

(** A loop that replaces, in a set, the elements of an array that meet a
    test by their images, none of which meets the test. *)
Lemma elem_of_foldl_move (P : string → bool) (g : string → string)
    (l : list string) : ∀ s x,
  (∀ e, e ∈ l → P e = true → P (g e) = false) →
  x ∈ foldl (λ acc e, if P e then JSSet.add (g e) (JSSet.delete e acc) else acc) s l
  ↔ (x ∈ s ∧ ¬ (x ∈ l ∧ P x = true)) ∨ (∃ e, e ∈ l ∧ P e = true ∧ x = g e).
Proof.
  induction l as [|e l IH]; intros s x Hg; simpl.
  - split; [intros Hx; left; split; [done|]; by intros [?%elem_of_nil _]|].
    intros [[Hx _]|(e & ?%elem_of_nil & _)]; done.
  - rewrite IH by (intros e' He'; apply Hg; by right).
    destruct (P e) eqn:He.
    + rewrite elem_of_add, elem_of_delete. split.
      * intros [[[->|[Hx Hne]] Hn]|(e' & He' & HP & ->)].
        -- right. exists e. split; [by left|done].
        -- left. split; [done|]. intros [[->|Hl]%elem_of_cons HP]; tauto.
        -- right. exists e'. split; [by right|done].
      * intros [[Hx Hn]|(e' & [->|He']%elem_of_cons & HP & ->)].
        -- left. split.
           ++ right. split; [done|]. intros ->. apply Hn. split; [by left|done].
           ++ intros [Hl HP]. apply Hn. split; [by right|done].
        -- left. split; [by left|]. intros [_ HP'].
           rewrite (Hg e) in HP'; [done|by left|done].
        -- right. by exists e'.
    + split.
      * intros [[Hx Hn]|(e' & He' & HP & ->)].
        -- left. split; [done|]. intros [[->|Hl]%elem_of_cons HP]; [congruence|tauto].
        -- right. exists e'. split; [by right|done].
      * intros [[Hx Hn]|(e' & [->|He']%elem_of_cons & HP & ->)].
        -- left. split; [done|]. intros [Hl HP]. apply Hn. split; [by right|done].
        -- congruence.
        -- right. by exists e'.
Qed.
End SetFacts.

Section ExpandedFolders.
Import FileBrowser.

(** The folders the [fileCreated] loop adds on its way down. *)
Lemma elem_of_expandParents rest : ∀ ks s x,
  x ∈ Browser.expandParents rest (joinPath ks) s
  ↔ x ∈ s ∨ ∃ d, newDirs ks rest d ∧ x = joinPath d.
Proof.
  induction rest as [|part rest IH]; intros ks s x.
  - simpl. split; [by left|]. intros [?|(d & (pre & post & E & Hpre & _) & _)]; [done|].
    by destruct pre.
  - destruct rest as [|part' rest].
    + simpl. split; [by left|]. intros [?|(d & Hd & _)]; [done|].
      by apply newDirs_single in Hd.
    + change (Browser.expandParents (part :: part' :: rest) (joinPath ks) s)
        with (Browser.expandParents (part' :: rest) (joinPath ks +:+ "/" +:+ part)
                (JSSet.add (joinPath ks +:+ "/" +:+ part) s)).
      rewrite <- joinPath_snoc, IH, elem_of_add.
      setoid_rewrite (newDirs_cons ks part (part' :: rest)); [|done]. split.
      * intros [[->|Hx]|(d & Hd & ->)]; [right|by left|right].
        -- exists (ks ++ [part]). auto.
        -- exists d. auto.
      * intros [Hx|(d & [->|Hd] & ->)]; [by left; right|by left; left|right].
        by exists d.
Qed.

Lemma startsWith_app s a : JS.startsWith (a +:+ s) a = true.
Proof.
  induction a as [|c a IH]; [by destruct s|]. rewrite sapp_cons. simpl.
  by rewrite Ascii.eqb_refl.
Qed.

Lemma startsWith_inv s a : JS.startsWith s a = true → ∃ r, s = a +:+ r.
Proof.
  revert s. induction a as [|c a IH]; intros s H; [by exists s|].
  destruct s as [|x s]; [done|]. simpl in H.
  apply andb_true_iff in H as [->%Ascii.eqb_eq H].
  destruct (IH s H) as [r ->]. by exists r.
Qed.

(** Two strings that begin the same string: one begins the other. *)
Lemma startsWith_comparable s a b :
  JS.startsWith s a = true → JS.startsWith s b = true →
  JS.startsWith a b = true ∨ JS.startsWith b a = true.
Proof.
  revert s b. induction a as [|c a IH]; intros s b Ha Hb; [by right; destruct b|].
  destruct b as [|c' b]; [by left|]. destruct s as [|x s]; [done|].
  simpl in *. apply andb_true_iff in Ha as [Hc Ha].
  apply andb_true_iff in Hb as [Hc' Hb].
  apply Ascii.eqb_eq in Hc, Hc'. subst. rewrite Ascii.eqb_refl. simpl.
  by apply (IH s).
Qed.

Lemma startsWith_longer a c r : JS.startsWith a (a +:+ String c r) = false.
Proof.
  induction a as [|x a IH]; [done|]. rewrite sapp_cons. simpl.
  by rewrite IH, andb_false_r.
Qed.

Lemma substringFrom_app a r : JSLib.substringFrom (String.length a) (a +:+ r) = r.
Proof. induction a as [|c a IH]; [by destruct r|]. by rewrite sapp_cons. Qed.
End ExpandedFolders.

(** X15.  When a file is created at a well-formed path, the [fileCreated]
    handler expands every folder above it and nothing else: afterwards the
    expanded folders are those from before and the strict directory prefixes
    of the path. *)
Theorem onFileCreated_expands_parents (path : string) (prev : JSSet.t) :
  FS.wellFormedPath path = true →
  ∀ x, x ∈ Browser.onFileCreated path prev
       ↔ x ∈ prev ∨ FileBrowser.directoryOf x path.
Proof.
  intros Hwf x. unfold Browser.onFileCreated.
  rewrite (elem_of_expandParents (FileBrowser.pathParts path) [] prev x).
  split; (intros [?|H]; [by left|right]).
  - destruct H as (d & (pre & post & E & Hpre & Hpost & ->) & ->).
    by apply (parts_directoryOf path pre post).
  - destruct (directoryOf_parts x path Hwf H) as (ks & r & E & Hks & Hr & ->).
    exists ks. split; [|done]. by exists ks, r.
Qed.

Lemma onFileCreated_expands_parents_witness :
  "/src/lib" ∈ Browser.onFileCreated "/src/lib/a.ts" ["/docs"]
  ↔ "/src/lib" ∈ ["/docs"] ∨ FileBrowser.directoryOf "/src/lib" "/src/lib/a.ts".
Proof.
  apply (onFileCreated_expands_parents "/src/lib/a.ts" ["/docs"]). reflexivity.
Defined.

(** X16.  The [fileDeleted] handler collapses the deleted path and the
    folders nested in it, by path segments: a folder stays expanded exactly
    when it is not the path and does not start with the path followed by a
    slash (so [/src2] stays when [/src] is deleted).  A rename in progress
    on the deleted path is cancelled, any other is kept. *)
Theorem onFileDeleted_collapses (path : string) (prev : JSSet.t)
    (renaming : option string) :
  (∀ x, x ∈ Browser.onFileDeleted path prev
        ↔ x ∈ prev ∧ x ≠ path ∧ JS.startsWith x (path +:+ "/") = false)
  ∧ Browser.onFileDeletedRenaming path renaming
    = (if decide (renaming = Some path) then None else renaming).
Proof.
  split.
  - intros x. unfold Browser.onFileDeleted, JSSet.toArray.
    rewrite (elem_of_foldl_delete (λ e, JS.startsWith e (path +:+ "/"))).
    rewrite !elem_of_delete.
    destruct (JS.startsWith x (path +:+ "/")); intuition congruence.
  - unfold Browser.onFileDeletedRenaming. destruct renaming as [p|]; [|by case_decide].
    destruct (String.eqb_spec p path) as [->|Hne]; case_decide; congruence.
Qed.

(** X17.  The [fileRenamed] handler, for two paths neither of which lies
    inside the other: afterwards the expanded folders are those from before
    that are neither the old path nor inside it, the new path if the old one
    was expanded, and, for every expanded folder inside the old path, the
    folder at the same relative place inside the new path.  A rename in
    progress on the old path follows to the new path. *)
Theorem onFileRenamed_moves (oldPath newPath : string) (prev : JSSet.t)
    (renaming : option string) :
  Browser.apart oldPath newPath →
  (∀ x, x ∈ Browser.onFileRenamed oldPath newPath prev
        ↔ (x ∈ prev ∧ x ≠ oldPath ∧ JS.startsWith x (oldPath +:+ "/") = false)
          ∨ (oldPath ∈ prev ∧ x = newPath)
          ∨ (∃ rest, oldPath +:+ "/" +:+ rest ∈ prev ∧ x = newPath +:+ "/" +:+ rest))
  ∧ Browser.onFileRenamedRenaming oldPath newPath renaming
    = (if decide (renaming = Some oldPath) then Some newPath else renaming).
Proof.
  intros [Hnew Hold]. split.
  - intros x. unfold Browser.onFileRenamed, JSSet.toArray. cbv zeta.
    set (inside e := JS.startsWith e (oldPath +:+ "/")).
    set (image e := newPath +:+ JSLib.substringFrom (String.length oldPath) e).
    set (s1 := if JSSet.has oldPath prev then _ else prev).
    (* the image of a folder inside the old path *)
    assert (∀ e, inside e = true →
                 ∃ rest, e = oldPath +:+ "/" +:+ rest ∧ image e = newPath +:+ "/" +:+ rest)
      as Himage.
    { intros e [r Hr]%startsWith_inv. rewrite sapp_assoc in Hr. exists r.
      split; [done|]. unfold image. by rewrite Hr, substringFrom_app. }
    assert (∀ rest, inside (newPath +:+ "/" +:+ rest) = false) as Houtside.
    { intros rest. destruct (inside _) eqn:E; [|done]. exfalso. unfold inside in E.
      destruct (startsWith_comparable (newPath +:+ "/" +:+ rest)
                  (newPath +:+ "/") (oldPath +:+ "/")) as [H|H]; [|done|congruence..].
      rewrite <- sapp_assoc. apply startsWith_app. }
    assert (inside oldPath = false) as Hold'.
    { apply startsWith_longer. }
    assert (inside newPath = false) as Hnew'.
    { destruct (inside newPath) eqn:E; [|done]. exfalso.
      apply startsWith_inv in E as [r E].
      assert (JS.startsWith (newPath +:+ "/") (oldPath +:+ "/") = true); [|congruence].
      rewrite E, sapp_assoc. apply startsWith_app. }
    (* the set the loop starts from *)
    assert (∀ y, y ∈ s1 ↔ (y ∈ prev ∧ y ≠ oldPath) ∨ (oldPath ∈ prev ∧ y = newPath))
      as Hs1.
    { intros y. unfold s1. destruct (JSSet.has oldPath prev) eqn:H.
      - apply has_true in H. rewrite elem_of_add, elem_of_delete. tauto.
      - apply has_false in H. split; [|intros [[? _]|[? _]]; done].
        intros Hy. left. split; [done|]. by intros ->. }
    match goal with
    | |- _ ↔ ?R =>
        change (x ∈ foldl (λ acc e, if inside e
                                    then JSSet.add (image e) (JSSet.delete e acc)
                                    else acc) s1 s1 ↔ R)
    end.
    rewrite (elem_of_foldl_move inside image).
    + rewrite Hs1. split.
      * intros [[[[Hx Hne]|[Ho ->]] Hn]|(e & He & Hin & ->)].
        -- left. split; [done|]. split; [done|].
           destruct (inside x) eqn:E; [|done]. exfalso. apply Hn. split; [|done].
           apply Hs1. by left.
        -- right. by left.
        -- right. right. destruct (Himage e Hin) as (rest & -> & ->).
           exists rest. split; [|done].
           apply Hs1 in He as [[? _]|[_ E]]; [done|].
           rewrite <- E in Hnew'. unfold inside in Hnew', Hin. congruence.
      * intros [(Hx & Hne & Hout)|[[Ho ->]|(rest & Hin & ->)]].
        -- left. split; [by left|]. intros [_ ?]. unfold inside in *. congruence.
        -- left. split; [by right|]. intros [_ ?]. congruence.
        -- right. exists (oldPath +:+ "/" +:+ rest).
           assert (inside (oldPath +:+ "/" +:+ rest) = true) as Hi.
           { unfold inside. rewrite <- sapp_assoc. apply startsWith_app. }
           split; [|split; [done|]].
           ++ apply Hs1. left. split; [done|]. intros E.
              rewrite E in Hi. congruence.
           ++ destruct (Himage _ Hi) as (rest' & E & ->).
              rewrite <- !sapp_assoc in E. by apply String.app_inj in E as ->.
    + intros e _ Hin. destruct (Himage e Hin) as (rest & _ & ->). apply Houtside.
  - unfold Browser.onFileRenamedRenaming. destruct renaming as [p|]; [|by case_decide].
    destruct (String.eqb_spec p oldPath) as [->|Hne]; case_decide; congruence.
Qed.

Lemma onFileRenamed_moves_witness :
  (∀ x, x ∈ Browser.onFileRenamed "/src" "/lib" ["/src"; "/src/ui"; "/docs"]
        ↔ (x ∈ ["/src"; "/src/ui"; "/docs"] ∧ x ≠ "/src"
           ∧ JS.startsWith x ("/src" +:+ "/") = false)
          ∨ ("/src" ∈ ["/src"; "/src/ui"; "/docs"] ∧ x = "/lib")
          ∨ (∃ rest, "/src" +:+ "/" +:+ rest ∈ ["/src"; "/src/ui"; "/docs"]
                     ∧ x = "/lib" +:+ "/" +:+ rest))
  ∧ Browser.onFileRenamedRenaming "/src" "/lib" (Some "/src")
    = (if decide (Some "/src" = Some "/src") then Some "/lib" else Some "/src").
Proof.
  apply (onFileRenamed_moves "/src" "/lib" ["/src"; "/src/ui"; "/docs"] (Some "/src")).
  split; reflexivity.
Defined.

(** X18.  [handleToggleFolder] flips the folder it is given and no other:
    afterwards the folder is expanded exactly if it was not, every other
    folder is as before, and toggling twice restores the expanded folders. *)
Theorem handleToggleFolder_flips (path : string) (expanded : JSSet.t) :
  (path ∈ Browser.handleToggleFolder path expanded ↔ path ∉ expanded)
  ∧ (∀ x, x ≠ path → x ∈ Browser.handleToggleFolder path expanded ↔ x ∈ expanded)
  ∧ (∀ x, x ∈ Browser.handleToggleFolder path (Browser.handleToggleFolder path expanded)
          ↔ x ∈ expanded).
Proof.
  assert (∀ s x, x ∈ Browser.handleToggleFolder path s
                 ↔ (x = path ∧ path ∉ s) ∨ (x ≠ path ∧ x ∈ s)) as Hflip.
  { intros s x. unfold Browser.handleToggleFolder.
    destruct (JSSet.has path s) eqn:H.
    - apply has_true in H. rewrite elem_of_delete. tauto.
    - apply has_false in H. rewrite elem_of_add.
      destruct (decide (x = path)) as [->|]; tauto. }
  split; [|split].
  - rewrite Hflip. tauto.
  - intros x Hne. rewrite Hflip. tauto.
  - intros x. rewrite !Hflip. destruct (decide (x = path)) as [->|]; [|tauto].
    destruct (decide (path ∈ expanded)); tauto.
Qed.

(** ** The file browser: the rendered tree *)

Section JoinedPaths.
Import FileBrowser.
Implicit Types (ks segs : list string).

Lemma split_joinPath_valid segs : ∀ h,
  Forall validSegment segs → JS.contains "/" h = false →
  JS.split "/" (h +:+ joinPath segs) = h :: segs.
Proof.
  induction segs as [|s segs IH]; intros h Hvalid Hh.
  - simpl. rewrite sapp_nil_r. by apply split_no_sep.
  - apply Forall_cons in Hvalid as [[_ Hs] Hvalid]. simpl.
    change ("/" +:+ ?x) with (String "/" x).
    rewrite split_app_sep, (split_no_sep "/" h Hh). by rewrite IH.
Qed.

Lemma pathParts_joinPath segs :
  Forall validSegment segs → pathParts (joinPath segs) = segs.
Proof.
  intros Hvalid. unfold pathParts.
  rewrite <- (sapp_nil_l (joinPath segs)), split_joinPath_valid by done.
  change (List.filter _ ("" :: segs))
    with (List.filter (λ part, 0 <? String.length part) segs).
  by apply filter_validSegment.
Qed.

Lemma joinPath_directoryOf ks rest :
  Forall validSegment (ks ++ rest) → ks ≠ [] → rest ≠ [] →
  directoryOf (joinPath ks) (joinPath (ks ++ rest)).
Proof.
  intros Hvalid Hks Hrest. split; [by intros ?%joinPath_nil|].
  destruct rest as [|s rest]; [done|].
  apply Forall_app in Hvalid as [_ [[Hs _] _]%Forall_cons].
  exists (s +:+ joinPath rest). split; [by destruct s|]. by rewrite joinPath_app.
Qed.

Lemma directoryOf_joinPath d segs :
  Forall validSegment segs → directoryOf d (joinPath segs) →
  ∃ ks rest, segs = ks ++ rest ∧ ks ≠ [] ∧ rest ≠ [] ∧ d = joinPath ks.
Proof.
  intros Hvalid [Hd (r & _ & E)]. by apply (directory_segments segs d r).
Qed.

Lemma directoryOf_startsWith d p : directoryOf d p → JS.startsWith p (d +:+ "/") = true.
Proof.
  intros [_ (rest & _ & ->)]. rewrite <- sapp_assoc. apply startsWith_app.
Qed.
End JoinedPaths.

Section Rows.
Import FileBrowser.
Variable localeCompare : string → string → comparison.
Variable Dirs : list string → Prop.
Variable F : list File.
Variable h : Heap.
Hypothesis HF : Forall wellFormedFile F.
Hypothesis HOK : DirsOK Dirs F.
Hypothesis HI : Inv localeCompare Dirs F h.
Variable expandedFolders : JSSet.t.

Implicit Types (ks rest : list string) (n : Node) (d lvl : nat).

Local Abbreviation rowsOf lvl f := (flat_map (Browser.rows expandedFolders lvl) f).

Lemma rows_forest_0 lvl (l : list Node) :
  rowsOf lvl (forest 0 h l) = List.map (λ n, (n, lvl)) l.
Proof.
  induction l as [|n l IH]; [done|].
  rewrite forest_cons. cbn [flat_map List.map]. rewrite IH.
  cbn [Browser.rows]. destruct (type n); [done|].
  by destruct (JSSet.has _ _).
Qed.

Lemma rows_forest_S d lvl (l : list Node) :
  rowsOf lvl (forest (S d) h l)
  = flat_map (λ c, (c, lvl) ::
                   match type c with
                   | file => []
                   | folder =>
                       if JSSet.has (nodePath c) expandedFolders
                       then rowsOf (S lvl)
                              (forest d h (readLevel h (childrenOf (nodePath c))))
                       else []
                   end) l.
Proof.
  induction l as [|n l IH]; [done|].
  rewrite forest_cons. cbn [flat_map]. rewrite IH.
  cbn [Browser.rows]. by destruct (type n).
Qed.

(** The rows below [ks]: the nodes of the arrays below, each under
    expanded folders only, at the level of its depth. *)
Lemma rows_forest d : ∀ ks lvl n l,
  ks = [] ∨ Dirs ks →
  (∀ ks', Dirs ks' → length ks' ≤ length ks + d) →
  (n, l) ∈ rowsOf lvl (forest d h (readLevel h (levelRef ks)))
  ↔ ∃ rest, (ks ++ rest = [] ∨ Dirs (ks ++ rest))
            ∧ n ∈ readLevel h (levelRef (ks ++ rest))
            ∧ l = lvl + length rest
            ∧ ∀ pre post, rest = pre ++ post → pre ≠ [] →
                          joinPath (ks ++ pre) ∈ expandedFolders.
Proof.
  induction d as [|d IH]; intros ks lvl n l Hks Hbound.
  - rewrite rows_forest_0, list_elem_of_fmap. split.
    + intros (n' & [= -> ->] & Hn). exists []. rewrite app_nil_r.
      split; [done|]. split; [done|]. split; [simpl; lia|].
      intros pre post E Hpre. by destruct pre.
    + intros (rest & Hok & Hn & -> & _). assert (rest = []) as ->.
      { destruct Hok as [E|Hd]; [by apply app_nil in E as [_ ?]|].
        specialize (Hbound _ Hd). rewrite length_app in Hbound.
        destruct rest; [done|]. simpl in Hbound. lia. }
      rewrite app_nil_r in Hn. exists n. split; [|done]. f_equal. simpl. lia.
  - rewrite rows_forest_S, elem_of_flat_map. split.
    + intros (c & Hc & [[= -> ->]|Hn]%elem_of_cons).
      { exists []. rewrite app_nil_r. split; [done|]. split; [done|].
        split; [simpl; lia|]. intros pre post E Hpre. by destruct pre. }
      destruct (type c) eqn:Ht; [by apply elem_of_nil in Hn|].
      destruct (JSSet.has (nodePath c) expandedFolders) eqn:Hexp;
        [|by apply elem_of_nil in Hn].
      destruct (folder_in_level localeCompare Dirs F h HI ks c Hks Hc Ht) as [Ec Hd].
      rewrite Ec in Hn, Hexp. cbn [nodePath folderNode] in Hn, Hexp.
      rewrite <- levelRef_snoc in Hn.
      apply IH in Hn as (rest & Hok & Hn & -> & Hpre); [|by right|].
      * exists (name c :: rest). rewrite <- app_assoc in Hok, Hn.
        split; [done|]. split; [done|]. split; [simpl; lia|].
        intros pre post E Hne. destruct pre as [|p pre]; [done|].
        simplify_eq/=. destruct pre as [|p' pre].
        -- by apply has_true.
        -- change (ks ++ name c :: p' :: pre) with (ks ++ [name c] ++ (p' :: pre)).
           rewrite app_assoc. by apply (Hpre _ post).
      * intros ks' Hd'. specialize (Hbound ks' Hd'). rewrite length_app. simpl. lia.
    + intros (rest & Hok & Hn & -> & Hpre). destruct rest as [|s rest].
      { rewrite app_nil_r in Hn. exists n. split; [done|].
        replace (lvl + length (@nil string)) with lvl by (simpl; lia). by left. }
      assert (Dirs (ks ++ [s])) as Hd.
      { destruct Hok as [E|Hd]; [by apply app_nil in E as [_ ?]|].
        apply (dirs_prefix Dirs F HOK _ rest);
          [by destruct ks|by rewrite <- app_assoc]. }
      exists (folderNode s (joinPath (ks ++ [s]))). split.
      * apply (shape_level _ _ _ _ HI ks Hks). left. by exists s.
      * right. cbn [type nodePath folderNode].
        assert (JSSet.has (joinPath (ks ++ [s])) expandedFolders = true) as ->.
        { apply has_true. by apply (Hpre [s] rest). }
        rewrite <- levelRef_snoc. apply IH; [by right| |].
        -- intros ks' Hd'. specialize (Hbound ks' Hd'). rewrite length_app. simpl. lia.
        -- exists rest. rewrite <- !app_assoc. split; [done|]. split; [done|].
           split; [simpl; lia|]. intros pre post E Hne.
           rewrite <- app_assoc. apply (Hpre (s :: pre) post); [by rewrite E|done].
Qed.

(** The parent recorded with a node is the folder the node's array
    belongs to. *)
Lemma links_forest d : ∀ ks par n,
  ks = [] ∨ Dirs ks →
  (par, n) ∈ flat_map (Browser.links (joinPath ks))
               (forest d h (readLevel h (levelRef ks))) →
  ∃ rest, (ks ++ rest = [] ∨ Dirs (ks ++ rest))
          ∧ par = joinPath (ks ++ rest)
          ∧ n ∈ readLevel h (levelRef (ks ++ rest)).
Proof.
  assert (∀ d par (l : list Node) x,
            x ∈ flat_map (Browser.links par) (forest d h l) →
            (∃ n, n ∈ l ∧ x = (par, n))
            ∨ (∃ c, c ∈ l ∧ type c = folder
                    ∧ match d with
                      | 0 => False
                      | S d' =>
                          x ∈ flat_map (Browser.links (nodePath c))
                                (forest d' h (readLevel h (childrenOf (nodePath c))))
                      end)) as Hstep.
  { intros d' par l x. induction l as [|c l IHl];
      [intros Hx; destruct d'; by apply elem_of_nil in Hx|].
    rewrite forest_cons. cbn [flat_map].
    intros [Hx|Hx]%elem_of_app.
    - destruct (type c) eqn:Ht; cbn [Browser.links] in Hx.
      + apply list_elem_of_singleton in Hx. left. exists c. split; [by left|done].
      + apply elem_of_cons in Hx as [->|Hx]; [left; exists c; split; [by left|done]|].
        right. exists c. split; [by left|]. split; [done|].
        destruct d'; [by apply elem_of_nil in Hx|done].
    - destruct (IHl Hx) as [(n & Hn & ->)|(c' & Hc' & Ht & Hin)].
      + left. exists n. split; [by right|done].
      + right. exists c'. split; [by right|done]. }
  induction d as [|d IH]; intros ks par n Hks Hin.
  - destruct (Hstep _ _ _ _ Hin) as [(n' & Hn & [= -> ->])|(c & _ & _ & [])].
    exists []. by rewrite app_nil_r.
  - destruct (Hstep _ _ _ _ Hin) as [(n' & Hn & [= -> ->])|(c & Hc & Ht & Hsub)].
    { exists []. by rewrite app_nil_r. }
    destruct (folder_in_level localeCompare Dirs F h HI ks c Hks Hc Ht) as [Ec Hd].
    rewrite Ec in Hsub. cbn [nodePath folderNode] in Hsub.
    rewrite <- levelRef_snoc in Hsub.
    apply IH in Hsub as (rest & Hok & -> & Hn); [|by right].
    exists (name c :: rest). by rewrite <- app_assoc in Hok, Hn |- *.
Qed.
End Rows.

Section TreeFacts.
Import FileBrowser.

Lemma links_nodes h d : ∀ par (l : list Node),
  (flat_map (Browser.links par) (forest d h l)).*2 = allNodes (forest d h l).
Proof.
  induction d as [|d IH]; intros par l.
  - induction l as [|c l IHl]; [done|].
    rewrite forest_cons, allNodes_cons. cbn [flat_map]. rewrite fmap_app, IHl.
    by destruct (type c).
  - induction l as [|c l IHl]; [done|].
    rewrite forest_cons, allNodes_cons. cbn [flat_map]. rewrite fmap_app, IHl.
    destruct (type c); [done|]. cbn [Browser.links nodes].
    rewrite fmap_cons. cbn [snd]. by rewrite IH.
Qed.

(** The rendered rows are nodes of the forest, in the order of [allNodes]. *)
Lemma rows_sublist h expandedFolders d : ∀ lvl (l : list Node),
  (flat_map (Browser.rows expandedFolders lvl) (forest d h l)).*1
  `sublist_of` allNodes (forest d h l).
Proof.
  induction d as [|d IH]; intros lvl l.
  - induction l as [|c l IHl]; [done|].
    rewrite forest_cons, allNodes_cons. cbn [flat_map]. rewrite fmap_app.
    apply sublist_app; [|done].
    destruct (type c) eqn:Ht; cbn [Browser.rows nodes]; rewrite Ht; [done|].
    rewrite fmap_cons. cbn [fst]. apply sublist_skip.
    by destruct (JSSet.has _ _).
  - induction l as [|c l IHl]; [done|].
    rewrite forest_cons, allNodes_cons. cbn [flat_map]. rewrite fmap_app.
    apply sublist_app; [|done].
    destruct (type c) eqn:Ht; cbn [Browser.rows nodes]; rewrite Ht; [done|].
    rewrite fmap_cons. cbn [fst]. apply sublist_skip.
    destruct (JSSet.has _ _); [apply IH|apply sublist_nil_l].
Qed.

Lemma depthBound_Permutation (l k : list File) :
  l ≡ₚ k → depthBound l = depthBound k.
Proof. induction 1; simpl; lia. Qed.
End TreeFacts.

(** X19.  The rows the browser renders for the tree of files with
    well-formed, distinct paths are the nodes whose folders above are all
    expanded, and a node's level is the number of folders above it: a row
    [(n, l)] is rendered exactly when [n] is a node of the tree, its path has
    [l + 1] segments and every strict directory prefix of its path is in
    [expandedFolders].  No node is rendered twice. *)
Theorem treeRows_shows_expanded
    (localeCompare : string → string → comparison)
    (files : list FileBrowser.File) (expandedFolders : JSSet.t) :
  (∀ a b, localeCompare a b = Gt → localeCompare b a ≠ Gt) →
  (∀ a b c, localeCompare a b ≠ Gt → localeCompare b c ≠ Gt → localeCompare a c ≠ Gt) →
  Forall (λ f, FS.wellFormedPath (FileBrowser.path f) = true) files →
  NoDup (FileBrowser.path <$> files) →
  ∃ fileTree,
    FileBrowser.buildFileTree localeCompare files = Some fileTree
    ∧ NoDup (Browser.treeRows expandedFolders fileTree).*1
    ∧ ∀ n l,
        (n, l) ∈ Browser.treeRows expandedFolders fileTree
        ↔ n ∈ FileBrowser.allNodes fileTree
          ∧ S l = length (FileBrowser.pathParts (FileBrowser.nodePath n))
          ∧ ∀ d, FileBrowser.directoryOf d (FileBrowser.nodePath n) →
                 d ∈ expandedFolders.
Proof.
  intros Htotal Htrans Hwf Hdistinct.
  destruct (buildFileTree_heap localeCompare Htotal Htrans files Hwf Hdistinct)
    as (h & Hh & HI).
  destruct (buildFileTree_nodes localeCompare files Hwf h HI) as [Hnodup Hnodes].
  pose proof (isDir_DirsOK files Hwf) as HOK.
  exists (FileBrowser.forest (FileBrowser.depthBound files) h (FileBrowser.tree h)).
  split; [unfold FileBrowser.buildFileTree; by rewrite Hh|].
  split.
  { unfold Browser.treeRows.
    exact (sublist_NoDup _ _ Hnodup (rows_sublist h expandedFolders _ 0 _)). }
  intros n l. unfold Browser.treeRows.
  rewrite (rows_forest localeCompare (FileBrowser.isDir files) files h HOK HI
             expandedFolders (FileBrowser.depthBound files) [] 0 n l); [|by left|].
  2:{ intros ks' (_ & f & rest & Hf & _ & Hparts). apply depthBound_ge in Hf.
      rewrite Hparts, length_app in Hf. simpl. lia. }
  cbn [app]. split.
  - intros (rest & Hok & Hn & -> & Hpre).
    pose proof (proj1 (FileBrowser.shape_level _ _ _ _ HI rest Hok n) Hn) as Hexp.
    destruct (expected_path (FileBrowser.isDir files) files Hwf HOK rest n Hok Hexp)
      as [Hpath Hvalid].
    split; [apply Hnodes; by exists rest|]. rewrite Hpath. split.
    + rewrite pathParts_joinPath, length_app by done. simpl. lia.
    + intros d (ks & r & E & Hks & Hr & ->)%directoryOf_joinPath; [|done].
      destruct (snoc_cases r Hr) as (r' & x & ->).
      rewrite app_assoc in E. apply app_inj_tail in E as [-> _].
      by apply (Hpre ks r').
  - intros ((ks & Hok & Hexp)%Hnodes & Hlen & Hdirs).
    destruct (expected_path (FileBrowser.isDir files) files Hwf HOK ks n Hok Hexp)
      as [Hpath Hvalid].
    exists ks. split; [done|]. split; [by apply (FileBrowser.shape_level _ _ _ _ HI)|].
    split.
    + rewrite Hpath, pathParts_joinPath, length_app in Hlen by done.
      simpl in Hlen. lia.
    + intros pre post -> Hpre. apply Hdirs. rewrite Hpath, <- app_assoc.
      apply joinPath_directoryOf; [by rewrite app_assoc|done|by destruct post].
Qed.

Lemma treeRows_shows_expanded_witness :
  let files :=
    [ {| FileBrowser.path := "/src/b.ts"; FileBrowser.content := "b" |};
      {| FileBrowser.path := "/src/lib/a.ts"; FileBrowser.content := "a" |} ] in
  let expandedFolders := ["/src"] in
  ∃ fileTree,
    FileBrowser.buildFileTree FileBrowser.codeUnitCompare files = Some fileTree
    ∧ NoDup (Browser.treeRows expandedFolders fileTree).*1
    ∧ ∀ n l,
        (n, l) ∈ Browser.treeRows expandedFolders fileTree
        ↔ n ∈ FileBrowser.allNodes fileTree
          ∧ S l = length (FileBrowser.pathParts (FileBrowser.nodePath n))
          ∧ ∀ d, FileBrowser.directoryOf d (FileBrowser.nodePath n) →
                 d ∈ expandedFolders.
Proof.
  apply (treeRows_shows_expanded FileBrowser.codeUnitCompare).
  - apply codeUnitCompare_total.
  - apply codeUnitCompare_trans.
  - repeat constructor.
  - apply (bool_decide_unpack _). vm_compute. exact I.
Defined.

(** X20.  After the [fileCreated] handler has run for a file of the tree, the
    row of that file is rendered, at the level of its depth, whatever was
    expanded before: the handler expands all the folders above the file. *)
Theorem created_file_is_shown
    (localeCompare : string → string → comparison)
    (files : list FileBrowser.File) (expandedFolders : JSSet.t)
    (f : FileBrowser.File) :
  (∀ a b, localeCompare a b = Gt → localeCompare b a ≠ Gt) →
  (∀ a b c, localeCompare a b ≠ Gt → localeCompare b c ≠ Gt → localeCompare a c ≠ Gt) →
  Forall (λ f, FS.wellFormedPath (FileBrowser.path f) = true) files →
  NoDup (FileBrowser.path <$> files) →
  f ∈ files →
  ∃ fileTree n,
    FileBrowser.buildFileTree localeCompare files = Some fileTree
    ∧ FileBrowser.type n = FileBrowser.file
    ∧ FileBrowser.nodeFile n = Some f
    ∧ (n, length (FileBrowser.pathParts (FileBrowser.path f)) - 1)
      ∈ Browser.treeRows (Browser.onFileCreated (FileBrowser.path f) expandedFolders)
          fileTree.
Proof.
  intros Htotal Htrans Hwf Hdistinct Hf.
  destruct (buildFileTree_heap localeCompare Htotal Htrans files Hwf Hdistinct)
    as (h & Hh & HI).
  pose proof (isDir_DirsOK files Hwf) as HOK.
  assert (FS.wellFormedPath (FileBrowser.path f) = true) as Hwff
    by (by apply (proj1 (Forall_forall _ _) Hwf)).
  destruct (wellFormedPath_parts _ Hwff) as (Hne & Hvalid & _).
  destruct (snoc_cases _ Hne) as (ks & s & Hparts).
  assert (ks = [] ∨ FileBrowser.isDir files ks) as Hok.
  { destruct ks as [|k ks]; [by left|right]. split; [done|]. by exists f, [s]. }
  exists (FileBrowser.forest (FileBrowser.depthBound files) h (FileBrowser.tree h)),
         (FileBrowser.fileNode s f).
  split; [unfold FileBrowser.buildFileTree; by rewrite Hh|].
  split; [done|]. split; [done|]. unfold Browser.treeRows.
  apply (rows_forest localeCompare (FileBrowser.isDir files) files h HOK HI _
           (FileBrowser.depthBound files) [] 0); [by left| |].
  { intros ks' (_ & f' & rest & Hf' & _ & Hparts'). apply depthBound_ge in Hf'.
    rewrite Hparts', length_app in Hf'. simpl. lia. }
  exists ks. cbn [app]. split; [done|]. split.
  - apply (FileBrowser.shape_level _ _ _ _ HI ks Hok). right. by exists f, s.
  - split; [rewrite Hparts, length_app; simpl; lia|].
    intros pre post -> Hpre. unfold Browser.onFileCreated.
    apply (elem_of_expandParents (FileBrowser.pathParts (FileBrowser.path f)) []).
    right. exists pre. split; [|done].
    exists pre, (post ++ [s]). rewrite Hparts, <- app_assoc.
    split; [done|]. split; [done|]. split; [by destruct post|done].
Qed.

Lemma created_file_is_shown_witness :
  let f := {| FileBrowser.path := "/src/lib/a.ts"; FileBrowser.content := "a" |} in
  let files := [ {| FileBrowser.path := "/src/b.ts"; FileBrowser.content := "b" |}; f ] in
  ∃ fileTree n,
    FileBrowser.buildFileTree FileBrowser.codeUnitCompare files = Some fileTree
    ∧ FileBrowser.type n = FileBrowser.file
    ∧ FileBrowser.nodeFile n = Some f
    ∧ (n, length (FileBrowser.pathParts (FileBrowser.path f)) - 1)
      ∈ Browser.treeRows (Browser.onFileCreated (FileBrowser.path f) []) fileTree.
Proof.
  apply (created_file_is_shown FileBrowser.codeUnitCompare).
  - apply codeUnitCompare_total.
  - apply codeUnitCompare_trans.
  - repeat constructor.
  - apply (bool_decide_unpack _). vm_compute. exact I.
  - apply (bool_decide_unpack _). vm_compute. exact I.
Defined.

(** X21.  In the tree of files with well-formed, distinct paths the paths
    follow the nesting: every node is listed with its parent, the path of a
    node is the path of its parent folder (the empty string for a root)
    followed by a slash and the node's name, and the name is a path segment:
    not empty, without slash. *)
Theorem fileTree_paths_are_nested
    (localeCompare : string → string → comparison)
    (files : list FileBrowser.File) :
  (∀ a b, localeCompare a b = Gt → localeCompare b a ≠ Gt) →
  (∀ a b c, localeCompare a b ≠ Gt → localeCompare b c ≠ Gt → localeCompare a c ≠ Gt) →
  Forall (λ f, FS.wellFormedPath (FileBrowser.path f) = true) files →
  NoDup (FileBrowser.path <$> files) →
  ∃ fileTree,
    FileBrowser.buildFileTree localeCompare files = Some fileTree
    ∧ (flat_map (Browser.links "") fileTree).*2 = FileBrowser.allNodes fileTree
    ∧ ∀ parent n, (parent, n) ∈ flat_map (Browser.links "") fileTree →
        FileBrowser.nodePath n = parent +:+ "/" +:+ FileBrowser.name n
        ∧ FileBrowser.validSegment (FileBrowser.name n).
Proof.
  intros Htotal Htrans Hwf Hdistinct.
  destruct (buildFileTree_heap localeCompare Htotal Htrans files Hwf Hdistinct)
    as (h & Hh & HI).
  pose proof (isDir_DirsOK files Hwf) as HOK.
  exists (FileBrowser.forest (FileBrowser.depthBound files) h (FileBrowser.tree h)).
  split; [unfold FileBrowser.buildFileTree; by rewrite Hh|].
  split; [apply links_nodes|].
  intros parent n Hin.
  destruct (links_forest localeCompare (FileBrowser.isDir files) files h HI
              (FileBrowser.depthBound files) [] parent n ltac:(by left) Hin)
    as (rest & Hok & -> & Hn).
  cbn [app] in *.
  pose proof (proj1 (FileBrowser.shape_level _ _ _ _ HI rest Hok n) Hn) as Hexp.
  destruct (expected_path (FileBrowser.isDir files) files Hwf HOK rest n Hok Hexp)
    as [Hpath Hvalid].
  split; [by rewrite Hpath, joinPath_snoc|].
  apply Forall_app in Hvalid as [_ Hname]. by inversion Hname.
Qed.

Lemma fileTree_paths_are_nested_witness :
  let files :=
    [ {| FileBrowser.path := "/src/b.ts"; FileBrowser.content := "b" |};
      {| FileBrowser.path := "/readme.md"; FileBrowser.content := "r" |} ] in
  ∃ fileTree,
    FileBrowser.buildFileTree FileBrowser.codeUnitCompare files = Some fileTree
    ∧ (flat_map (Browser.links "") fileTree).*2 = FileBrowser.allNodes fileTree
    ∧ ∀ parent n, (parent, n) ∈ flat_map (Browser.links "") fileTree →
        FileBrowser.nodePath n = parent +:+ "/" +:+ FileBrowser.name n
        ∧ FileBrowser.validSegment (FileBrowser.name n).
Proof.
  apply (fileTree_paths_are_nested FileBrowser.codeUnitCompare).
  - apply codeUnitCompare_total.
  - apply codeUnitCompare_trans.
  - repeat constructor.
  - apply (bool_decide_unpack _). vm_compute. exact I.
Defined.

(** X22.  [handleDeleteFolder] on a folder node of the tree built from the
    files never takes its empty-folder branch: some file lies in the folder,
    so [fs.deleteFile] is called with the folder's path exactly when the
    user confirms.  On a path no file lies in, nothing is called even when
    the user confirms. *)
Theorem handleDeleteFolder_on_tree
    (localeCompare : string → string → comparison)
    (files : list FileBrowser.File) (confirmed : bool) :
  (∀ a b, localeCompare a b = Gt → localeCompare b a ≠ Gt) →
  (∀ a b c, localeCompare a b ≠ Gt → localeCompare b c ≠ Gt → localeCompare a c ≠ Gt) →
  Forall (λ f, FS.wellFormedPath (FileBrowser.path f) = true) files →
  NoDup (FileBrowser.path <$> files) →
  ∃ fileTree,
    FileBrowser.buildFileTree localeCompare files = Some fileTree
    ∧ (∀ n, n ∈ FileBrowser.allNodes fileTree →
            FileBrowser.type n = FileBrowser.folder →
            Browser.handleDeleteFolder files confirmed (FileBrowser.nodePath n)
            = if confirmed then Some (FileBrowser.nodePath n) else None)
    ∧ (∀ p, (∀ f, f ∈ files →
                  JS.startsWith (FileBrowser.path f) (p +:+ "/") = false) →
            Browser.handleDeleteFolder files confirmed p = None).
Proof.
  intros Htotal Htrans Hwf Hdistinct.
  destruct (buildFileTree_heap localeCompare Htotal Htrans files Hwf Hdistinct)
    as (h & Hh & HI).
  destruct (buildFileTree_nodes localeCompare files Hwf h HI) as [_ Hnodes].
  pose proof (isDir_DirsOK files Hwf) as HOK.
  exists (FileBrowser.forest (FileBrowser.depthBound files) h (FileBrowser.tree h)).
  split; [unfold FileBrowser.buildFileTree; by rewrite Hh|]. split.
  - intros n (ks & Hok & [(s & -> & Hd)|(f & s & _ & _ & ->)])%Hnodes Ht; [|done].
    destruct Hd as (Hne & f & rest & Hf & Hrest & Hparts).
    assert (FS.wellFormedPath (FileBrowser.path f) = true) as Hwff
      by (by apply (proj1 (Forall_forall _ _) Hwf)).
    pose proof (directoryOf_startsWith _ _
                  (parts_directoryOf _ _ rest Hwff Hparts Hne Hrest)) as Hin.
    unfold Browser.handleDeleteFolder. cbn [FileBrowser.nodePath FileBrowser.folderNode].
    destruct (List.filter _ files) as [|g l] eqn:E; [|done].
    exfalso. assert (In f (List.filter
      (λ f, JS.startsWith (FileBrowser.path f)
              (FileBrowser.joinPath (ks ++ [s]) +:+ "/")) files)) as Hf'.
    { apply filter_In. split; [by apply list_elem_of_In|done]. }
    by rewrite E in Hf'.
  - intros p Hnone. unfold Browser.handleDeleteFolder.
    destruct (List.filter _ files) as [|g l] eqn:E; [done|]. exfalso.
    assert (In g (List.filter
      (λ f, JS.startsWith (FileBrowser.path f) (p +:+ "/")) files)) as Hg
      by (rewrite E; by left).
    apply filter_In in Hg as [Hg Hin]. apply list_elem_of_In in Hg.
    rewrite (Hnone g Hg) in Hin. done.
Qed.

Lemma handleDeleteFolder_on_tree_witness :
  let files :=
    [ {| FileBrowser.path := "/src/b.ts"; FileBrowser.content := "b" |};
      {| FileBrowser.path := "/readme.md"; FileBrowser.content := "r" |} ] in
  ∃ fileTree,
    FileBrowser.buildFileTree FileBrowser.codeUnitCompare files = Some fileTree
    ∧ (∀ n, n ∈ FileBrowser.allNodes fileTree →
            FileBrowser.type n = FileBrowser.folder →
            Browser.handleDeleteFolder files true (FileBrowser.nodePath n)
            = if true then Some (FileBrowser.nodePath n) else None)
    ∧ (∀ p, (∀ f, f ∈ files →
                  JS.startsWith (FileBrowser.path f) (p +:+ "/") = false) →
            Browser.handleDeleteFolder files true p = None).
Proof.
  apply (handleDeleteFolder_on_tree FileBrowser.codeUnitCompare).
  - apply codeUnitCompare_total.
  - apply codeUnitCompare_trans.
  - repeat constructor.
  - apply (bool_decide_unpack _). vm_compute. exact I.
Defined.

(** X23.  The tree does not depend on the order in which the files are
    listed, as long as the collation tells their paths apart: for a
    collation that is a total preorder and under which no two different
    paths of the list tie, [buildFileTree] gives the same result on every
    permutation of the list. *)
Theorem buildFileTree_order_independent
    (localeCompare : string → string → comparison)
    (files files' : list FileBrowser.File) :
  (∀ a b, localeCompare a b = Gt → localeCompare b a ≠ Gt) →
  (∀ a b c, localeCompare a b ≠ Gt → localeCompare b c ≠ Gt → localeCompare a c ≠ Gt) →
  (∀ f g, f ∈ files → g ∈ files →
          localeCompare (FileBrowser.path f) (FileBrowser.path g) ≠ Gt →
          localeCompare (FileBrowser.path g) (FileBrowser.path f) ≠ Gt →
          FileBrowser.path f = FileBrowser.path g) →
  NoDup (FileBrowser.path <$> files) →
  files ≡ₚ files' →
  FileBrowser.buildFileTree localeCompare files
  = FileBrowser.buildFileTree localeCompare files'.
Proof.
  intros Htotal Htrans Hapart Hdistinct Hperm.
  set (byPath := λ a b : FileBrowser.File,
         localeCompare (FileBrowser.path a) (FileBrowser.path b)).
  assert (FileBrowser.sort byPath files = FileBrowser.sort byPath files') as Hsort.
  { apply (StronglySorted_unique_strong (FileBrowser.before byPath)).
    - intros x1 x2 Hx1 Hx2 H12 H21.
      rewrite elem_of_sort in Hx1. rewrite elem_of_sort, <- Hperm in Hx2.
      apply (NoDup_fmap_eq FileBrowser.path files); [done..|].
      by apply Hapart.
    - apply sort_StronglySorted; intros *; [apply Htotal|apply Htrans].
    - apply sort_StronglySorted; intros *; [apply Htotal|apply Htrans].
    - by rewrite !sort_Permutation. }
  unfold FileBrowser.buildFileTree. fold byPath.
  by rewrite Hsort, (depthBound_Permutation files files').
Qed.

Section CodeUnitOrderAntisym.
Lemma codeUnitCompare_antisym a b :
  FileBrowser.codeUnitCompare a b ≠ Gt → FileBrowser.codeUnitCompare b a ≠ Gt → a = b.
Proof. rewrite !codeUnitCompare_le. apply (anti_symm String.le). Qed.
End CodeUnitOrderAntisym.

Lemma buildFileTree_order_independent_witness :
  let a := {| FileBrowser.path := "/src/b.ts"; FileBrowser.content := "b" |} in
  let b := {| FileBrowser.path := "/readme.md"; FileBrowser.content := "r" |} in
  FileBrowser.buildFileTree FileBrowser.codeUnitCompare [a; b]
  = FileBrowser.buildFileTree FileBrowser.codeUnitCompare [b; a].
Proof.
  apply (buildFileTree_order_independent FileBrowser.codeUnitCompare).
  - apply codeUnitCompare_total.
  - apply codeUnitCompare_trans.
  - intros f g _ _. apply codeUnitCompare_antisym.
  - apply (bool_decide_unpack _). vm_compute. exact I.
  - apply Permutation_swap.
Defined.

(** Paths that tie keep the order of the list ([sort] is stable), and the
    tree then depends on it: under a collation that ties [/a] and [/b] the
    two orders of the list give different trees. *)
Example buildFileTree_ties_keep_order :
  let a := {| FileBrowser.path := "/a"; FileBrowser.content := "" |} in
  let b := {| FileBrowser.path := "/b"; FileBrowser.content := "" |} in
  let tie (x y : string) := Eq in
  FileBrowser.buildFileTree tie [a; b] ≠ FileBrowser.buildFileTree tie [b; a].
Proof. vm_compute. discriminate. Qed.
